(** * mock-setigo: the order store of [main.go] and its lifecycle

    A shallow embedding of the in-memory order store of the mock
    certificate-authority server ([src/main.go]) together with the
    properties of the order lifecycle.

    What is modelled, and how:
    - Go's [int] is the 64-bit two's complement integer: a [Z] with the
      wrap-around of [nextID++] written out ([Go.wrap]).
    - [orders : map[int]*Order] is a [gmap Z Order].  Every pointer stored
      in the map comes from its own [&Order{...}] in [handleEnroll] and is
      never copied to a second key, so a map of values describes the map of
      pointers: writing through the pointer found under a key is an update
      of the value under that key.
    - Each handler touches the store inside one critical section of the
      mutex [mu]; a handler is therefore one atomic step of the server.
    - The goroutine started by [handleEnroll] sleeps and then runs its own
      critical section.  The server state carries the identifiers captured
      by the goroutines that are still asleep ([sleeping]); waking one up
      is a step of its own ([Issue]).  The length of the sleep is not
      modelled: a goroutine may wake up at any later point.
    - [range orders] visits the entries in an unspecified order: the
      iteration order is a parameter of [handleRevoke], and a step may use
      any permutation of the entries.
    - [time.Now()] is an input of [handleEnroll] (a [Z] time stamp).
    - Decoding of requests (method check, JSON body, path segments) happens
      before a handler reaches the store and is not part of the model.

    The operations of the specification are the store parts of the
    handlers: create is [handleEnroll], get is [handleStatus],
    certificateIfReady is [handleCollect], revokeByExternalID is
    [handleRevoke], and markIssued is the critical section of the goroutine
    of [handleEnroll] ([issue]). *)

From Stdlib Require Import ZArith String Ascii DecimalString DecimalPos DecimalZ Lia.
From Stdlib.Strings Require Byte.
From stdpp Require Import gmap strings list fin_maps sorting.

#[local] Open Scope Z_scope.

(** ** The pieces of Go's runtime and library that the handlers use *)

Module Go.

(** [int] on a 64-bit platform. *)
Definition minInt : Z := - 2 ^ 63.
Definition maxInt : Z := 2 ^ 63 - 1.

(** Two's complement wrap-around of arithmetic on [int]. *)
Definition wrap (z : Z) : Z := (z + 2 ^ 63) mod 2 ^ 64 - 2 ^ 63.

(** [fmt.Sprintf("%d", n)]: an optional minus sign followed by the decimal
    digits of the magnitude, without leading zeros. *)
Definition Sprintf_d (n : Z) : string := NilZero.string_of_int (Z.to_int n).

(** A string is its sequence of bytes; [byte c] is the value of one. *)
Definition byte (c : ascii) : Z := Z.of_nat (nat_of_ascii c).

(** [utf8.DecodeRune] on the front of a string: the code point that starts
    there and the number of bytes of its encoding.  Bytes that start no
    well-formed encoding (a stray continuation byte, an overlong form, a
    surrogate, a truncated sequence) give [RuneError] of width 1; the empty
    string gives width 0. *)
Definition RuneError : Z := 65533.

Definition inRange (lo hi b : Z) : bool := (lo <=? b) && (b <=? hi).

Definition DecodeRune (s : string) : Z * nat :=
  match s with
  | EmptyString => (RuneError, 0%nat)
  | String c0 s0 =>
      let b0 := byte c0 in
      if b0 <? 128 then (b0, 1%nat)
      else if inRange 194 223 b0 then
        match s0 with
        | String c1 _ =>
            let b1 := byte c1 in
            if inRange 128 191 b1 then
              (Z.lor (Z.shiftl (Z.land b0 31) 6) (Z.land b1 63), 2%nat)
            else (RuneError, 1%nat)
        | EmptyString => (RuneError, 1%nat)
        end
      else if inRange 224 239 b0 then
        match s0 with
        | String c1 (String c2 _) =>
            let b1 := byte c1 in
            let b2 := byte c2 in
            let lo := if b0 =? 224 then 160 else 128 in
            let hi := if b0 =? 237 then 159 else 191 in
            if inRange lo hi b1 && inRange 128 191 b2 then
              (Z.lor (Z.lor (Z.shiftl (Z.land b0 15) 12)
                            (Z.shiftl (Z.land b1 63) 6))
                     (Z.land b2 63), 3%nat)
            else (RuneError, 1%nat)
        | _ => (RuneError, 1%nat)
        end
      else if inRange 240 244 b0 then
        match s0 with
        | String c1 (String c2 (String c3 _)) =>
            let b1 := byte c1 in
            let b2 := byte c2 in
            let b3 := byte c3 in
            let lo := if b0 =? 240 then 144 else 128 in
            let hi := if b0 =? 244 then 143 else 191 in
            if inRange lo hi b1 && inRange 128 191 b2 && inRange 128 191 b3
            then
              (Z.lor (Z.lor (Z.lor (Z.shiftl (Z.land b0 7) 18)
                                   (Z.shiftl (Z.land b1 63) 12))
                            (Z.shiftl (Z.land b2 63) 6))
                     (Z.land b3 63), 4%nat)
            else (RuneError, 1%nat)
        | _ => (RuneError, 1%nat)
        end
      else (RuneError, 1%nat)
  end.

(** The table [space] of [fmt] and its search [isSpace]: U+0009 to U+000D,
    U+0020, U+0085, U+00A0, U+1680, U+2000 to U+200A, U+2028, U+2029,
    U+202F, U+205F and U+3000. *)
Definition space : list (Z * Z) :=
  [(9, 13); (32, 32); (133, 133); (160, 160); (5760, 5760); (8192, 8202);
   (8232, 8233); (8239, 8239); (8287, 8287); (12288, 12288)].

Fixpoint inRanges (r : Z) (ranges : list (Z * Z)) : bool :=
  match ranges with
  | [] => false
  | (lo, hi) :: ranges' =>
      if r <? lo then false
      else if r <=? hi then true
      else inRanges r ranges'
  end.

Definition isSpace (r : Z) : bool :=
  if 65536 <=? r then false else inRanges r space.

(** The string without its first [n] bytes. *)
Fixpoint advance (n : nat) (s : string) : string :=
  match n, s with
  | S n', String _ s' => advance n' s'
  | _, _ => s
  end.

(** The scanner reads at most [hugeWid] runes: after that many,
    [ReadRune] reports the end of the input. *)
Definition hugeWid : Z := 2 ^ 30.

(** [SkipSpace] in the mode of [Sscanf], with the number of runes that may
    still be read: runes that are spaces are skipped (a carriage return
    before a newline is one of them), a newline is the error "unexpected
    newline" ([None]), and the first other rune is put back.  Every round
    takes at least one byte, so the length of the string is fuel
    enough. *)
Fixpoint skipSpace (fuel : nat) (budget : Z) (s : string)
  : option (Z * string) :=
  match fuel with
  | O => Some (budget, s)
  | S fuel' =>
      if budget <=? 0 then Some (budget, s)
      else
        match DecodeRune s with
        | (_, O) => Some (budget, s)
        | (r, size) =>
            if r =? 10 then None
            else if isSpace r then skipSpace fuel' (budget - 1) (advance size s)
            else Some (budget, s)
        end
  end.

Definition SkipSpace (budget : Z) (s : string) : option (Z * string) :=
  skipSpace (String.length s) budget s.

Definition digit (c : ascii) : option Z :=
  let n := nat_of_ascii c in
  if (48 <=? n)%nat && (n <=? 57)%nat then Some (Z.of_nat n - 48) else None.

(** The token accepted by [scanNumber] for the verb [%d]: the longest
    prefix made of the digits "0123456789" that the scanner may still
    read. *)
Fixpoint scanNumber (budget : Z) (s : string) : list ascii :=
  match s with
  | String c s' =>
      if budget <=? 0 then []
      else
        match digit c with
        | Some _ => c :: scanNumber (budget - 1) s'
        | None => []
        end
  | EmptyString => []
  end.

(** [strconv.ParseUint] in base 10 without the range check. *)
Fixpoint parseDigits (acc : Z) (tok : list ascii) : option Z :=
  match tok with
  | [] => Some acc
  | c :: tok' =>
      match digit c with
      | Some d => parseDigits (10 * acc + d) tok'
      | None => None
      end
  end.

(** [fmt.Sscanf(s, "%d", &n)]: spaces are skipped, one sign is accepted,
    then the longest run of decimal digits, which must not be empty, is
    handed with the sign to [strconv.ParseInt(tok, 10, 64)], which refuses
    values outside [int64].  What follows the number is left unread.
    [None] stands for a returned error. *)
Definition Sscanf_d (s : string) : option Z :=
  match SkipSpace hugeWid s with
  | None => None
  | Some (budget, s1) =>
      let '(neg, budget', s2) :=
        match s1 with
        | String c r =>
            if budget <=? 0 then (false, budget, s1)
            else if (nat_of_ascii c =? 45)%nat then (true, budget - 1, r)
            else if (nat_of_ascii c =? 43)%nat then (false, budget - 1, r)
            else (false, budget, s1)
        | EmptyString => (false, budget, s1)
        end in
      match scanNumber budget' s2 with
      | [] => None
      | tok =>
          match parseDigits 0 tok with
          | Some m =>
              let v := if neg then - m else m in
              if (minInt <=? v) && (v <=? maxInt) then Some v else None
          | None => None
          end
      end
  end.

End Go.

(** ** Data model *)

(** [type Order struct] *)
Record Order := mkOrder {
  ID : Z;
  CSR : string;
  Status : string;        (* "pending", "issued", "revoked" *)
  Certificate : string;   (* PEM content *)
  CreatedAt : Z
}.

(** The assignment [o.Status = s] through a pointer to an order. *)
Definition setStatus (s : string) (o : Order) : Order :=
  {| ID := ID o; CSR := CSR o; Status := s;
     Certificate := Certificate o; CreatedAt := CreatedAt o |}.

Module EnrollResponse.
Record t := mk { SslId : Z; Message : string }.
End EnrollResponse.

Module RevokeResponse.
Record t := mk { Status : string; Message : string }.
End RevokeResponse.

(** What a handler writes to its [http.ResponseWriter]: either
    [http.Error(w, msg, code)] or a body. *)
Inductive StatusReply :=
| StatusError (msg : string) (code : Z)
| StatusJSON (sslId : Z) (status : string).

Inductive CollectReply :=
| CollectError (msg : string) (code : Z)
| CollectFile (filename : string) (body : string).

Definition StatusBadRequest : Z := 400.
Definition StatusNotFound : Z := 404.

(** The package-level variables [orders] and [nextID], the goroutines of
    [handleEnroll] that are asleep, and the lines written by [log.Printf]
    (without the time prefix). *)
Record Server := mkServer {
  orders : gmap Z Order;
  nextID : Z;
  sleeping : list Z;
  logged : list string
}.

(** [orders = make(map[int]*Order)], [nextID = 12345]. *)
Definition initial : Server :=
  {| orders := ∅; nextID := 12345; sleeping := []; logged := [] |}.

(** ** Helpers of [main.go] *)

Definition LF : string := String (ascii_of_nat 10) EmptyString.

Definition generateFakeCert : string :=
  ("-----BEGIN CERTIFICATE-----" +:+ LF +:+
   "MIIQD...... (Mock Certificate Data) ......" +:+ LF +:+
   "......" +:+ LF +:+
   "......" +:+ LF +:+
   "-----END CERTIFICATE-----")%string.

(** ** Handlers *)

(** [handleEnroll], from the decoded request on: the critical section that
    takes the identifier and stores the order, the start of the issuing
    goroutine, the log line and the response. *)
Definition handleEnroll (Csr : string) (now : Z) (σ : Server)
  : EnrollResponse.t * Server :=
  let orderID := nextID σ in
  let cert := generateFakeCert in
  (EnrollResponse.mk orderID "Order created successfully",
   {| orders := <[orderID :=
                    {| ID := orderID; CSR := Csr; Status := "pending";
                       Certificate := cert; CreatedAt := now |}]> (orders σ);
      nextID := Go.wrap (orderID + 1);
      sleeping := sleeping σ ++ [orderID];
      logged := logged σ ++
                  ["[Enroll] New Order ID: " +:+ Go.Sprintf_d orderID] |}).

(** The critical section of the goroutine of [handleEnroll] once its sleep
    is over. *)
Definition issue (id : Z) (σ : Server) : Server :=
  match orders σ !! id with
  | Some o =>
      {| orders := <[id := setStatus "issued" o]> (orders σ);
         nextID := nextID σ;
         sleeping := sleeping σ;
         logged := logged σ ++
                     ["[Enroll] Order " +:+ Go.Sprintf_d id +:+
                      " status changed to issued"] |}
  | None => σ
  end.

(** [handleStatus], from the parsed identifier on. *)
Definition handleStatus (orderID : Z) (σ : Server) : StatusReply :=
  match orders σ !! orderID with
  | None => StatusError "Order not found" StatusNotFound
  | Some order => StatusJSON orderID (Status order)
  end.

(** [handleCollect], from the parsed identifier on. *)
Definition handleCollect (orderID : Z) (σ : Server) : CollectReply :=
  match orders σ !! orderID with
  | None => CollectError "Order not found" StatusNotFound
  | Some order =>
      if negb (String.eqb (Status order) "issued") then
        CollectError ("Certificate not ready (status: " +:+ Status order +:+ ")")
                     StatusBadRequest
      else
        CollectFile (Go.Sprintf_d orderID +:+ ".crt") (Certificate order)
  end.

(** The loop of [handleRevoke] over the entries in iteration order [l]: the
    key of the first entry whose order renders to [SslId]. *)
Fixpoint firstMatch (SslId : string) (l : list (Z * Order)) : option Z :=
  match l with
  | [] => None
  | (k, o) :: l' =>
      if String.eqb (Go.Sprintf_d (ID o)) SslId then Some k
      else firstMatch SslId l'
  end.

(** [handleRevoke], from the decoded request on.  The identifier scanned
    into [orderID] is not used afterwards. *)
Definition handleRevoke (l : list (Z * Order)) (SslId : string) (σ : Server)
  : RevokeResponse.t * Server :=
  let orderID := default 0 (Go.Sscanf_d SslId) in
  match firstMatch SslId l with
  | Some k =>
      (RevokeResponse.mk "success" "Certificate revoked",
       {| orders := alter (setStatus "revoked") k (orders σ);
          nextID := nextID σ;
          sleeping := sleeping σ;
          logged := logged σ |})
  | None => (RevokeResponse.mk "failure" "Order not found", σ)
  end.

(** ** The server as a transition system *)

Inductive event :=
| Enroll (Csr : string) (now : Z) (resp : EnrollResponse.t)
| Issue (id : Z)
| Revoke (SslId : string) (resp : RevokeResponse.t).

Definition wake (pre post : list Z) (σ : Server) : Server :=
  {| orders := orders σ; nextID := nextID σ;
     sleeping := pre ++ post; logged := logged σ |}.

Inductive step : Server → event → Server → Prop :=
| step_enroll σ Csr now :
    step σ (Enroll Csr now (handleEnroll Csr now σ).1)
           (handleEnroll Csr now σ).2
| step_issue σ id pre post :
    sleeping σ = pre ++ id :: post →
    step σ (Issue id) (issue id (wake pre post σ))
| step_revoke σ l SslId :
    l ≡ₚ map_to_list (orders σ) →
    step σ (Revoke SslId (handleRevoke l SslId σ).1)
           (handleRevoke l SslId σ).2.

Inductive run : Server → list event → Server → Prop :=
| run_nil σ : run σ [] σ
| run_cons σ e σ' t σ'' : step σ e σ' → run σ' t σ'' → run σ (e :: t) σ''.

(** The identifiers handed out by the enrolments of a trace, in order. *)
Fixpoint enrolled (t : list event) : list Z :=
  match t with
  | [] => []
  | Enroll _ _ resp :: t' => EnrollResponse.SslId resp :: enrolled t'
  | _ :: t' => enrolled t'
  end.

(** ** Vocabulary of the properties *)

(** Reading a rendering back: the inverse used to reason about
    [Go.Sprintf_d]. *)
Definition decimal (s : string) : option Z :=
  Z.of_int <$> NilZero.int_of_string s.

(** The current status of the order stored under [k], if there is one. *)
Definition statusOf (σ : Server) (k : Z) : option string :=
  Status <$> orders σ !! k.

(** The number of enrolments of a trace. *)
Definition enrolments (t : list event) : Z := Z.of_nat (length (enrolled t)).

(** Every order is stored under its own identifier. *)
Definition keyed (σ : Server) : Prop :=
  ∀ k o, orders σ !! k = Some o → ID o = k.

(** The state after [n] enrolments: the counter has advanced [n] times, the
    stored orders are the ones enrolled so far, and a goroutine sleeps only
    for a stored order. *)
Definition counted (n : Z) (σ : Server) : Prop :=
  0 ≤ n ∧
  nextID σ = Go.wrap (12345 + n) ∧
  (∀ k, is_Some (orders σ !! k) → ∃ i, 0 ≤ i < n ∧ k = Go.wrap (12345 + i)) ∧
  (∀ k, k ∈ sleeping σ → is_Some (orders σ !! k)) ∧
  keyed σ.

(** The fields of an order that no handler assigns after its creation. *)
Definition sameData (o o' : Order) : Prop :=
  ID o' = ID o ∧ CSR o' = CSR o ∧ Certificate o' = Certificate o ∧
  CreatedAt o' = CreatedAt o.

(** The events that store a new order. *)
Definition isEnroll (e : event) : bool :=
  match e with Enroll _ _ _ => true | _ => false end.

(** The two answers of [handleRevoke]. *)
Definition revokeSuccess : RevokeResponse.t :=
  RevokeResponse.mk "success" "Certificate revoked".
Definition revokeFailure : RevokeResponse.t :=
  RevokeResponse.mk "failure" "Order not found".

(** "Revoked is terminal": from a reachable state, no step takes a revoked
    order to another status. *)
Definition revoked_is_terminal : Prop :=
  ∀ t σ e σ' k,
    run initial t σ → step σ e σ' →
    statusOf σ k = Some "revoked"%string →
    statusOf σ' k = Some "revoked"%string.

(** ** The handlers from the request on *)

(** [encoding/hex]: two characters of [hextable] for every byte. *)
Module Hex.

Definition hextable : string := "0123456789abcdef".

(** [hextable[i]] *)
Definition hexchar (i : N) : ascii :=
  default "000"%char (String.get (N.to_nat i) hextable).

Fixpoint EncodeToString (src : list Byte.byte) : string :=
  match src with
  | [] => EmptyString
  | v :: src' =>
      String (hexchar (N.shiftr (Byte.to_N v) 4))
        (String (hexchar (N.land (Byte.to_N v) 15)) (EncodeToString src'))
  end.

End Hex.

(** [generateRandomSessionID]: [b] is the slice of 16 bytes after
    [rand.Read(b)] has filled it. *)
Definition generateRandomSessionID (b : list Byte.byte) : string :=
  Hex.EncodeToString b.

(** [strings.Split(s, sep)] for a separator of one byte, as [handleStatus]
    and [handleCollect] call it: the pieces between the separators, one
    more than there are separators. *)
Module Strings.

Fixpoint Split (s : string) (sep : ascii) : list string :=
  match s with
  | EmptyString => [EmptyString]
  | String c s' =>
      if Ascii.eqb c sep then EmptyString :: Split s' sep
      else match Split s' sep with
           | piece :: pieces => String c piece :: pieces
           | [] => [String c EmptyString]
           end
  end.

End Strings.

Module AuthRequest.
Record t := mk { LoginName : string; Password : string }.
End AuthRequest.

Module AuthResponse.
Record t := mk { SslId : string; Message : string }.
End AuthResponse.

Module EnrollRequest.
Record t := mk { Csr : string; Term : Z; ProductCode : Z }.
End EnrollRequest.

Module RevokeRequest.
Record t := mk { SslId : string; Reason : string }.
End RevokeRequest.

(** The answer of a handler that encodes a JSON value: either
    [http.Error(w, msg, code)] or the value given to the encoder. *)
Inductive Reply (A : Type) :=
| HttpError (msg : string) (code : Z)
| Encoded (resp : A).
Arguments HttpError {A} msg code.
Arguments Encoded {A} resp.

Definition MethodGet : string := "GET".
Definition MethodPost : string := "POST".
Definition StatusMethodNotAllowed : Z := 405.

(** The five handlers with their checks of the request.  A request is
    given by its method, its URL path and the outcome of decoding its JSON
    body ([None] when [Decode] returns an error); the decoder itself is
    not modelled. *)
Module HTTP.

Definition handleAuth (Method : string) (body : option AuthRequest.t)
    (b : list Byte.byte) (σ : Server) : Reply AuthResponse.t * Server :=
  if negb (String.eqb Method MethodPost) then
    (HttpError "Method not allowed" StatusMethodNotAllowed, σ)
  else
    match body with
    | None => (HttpError "Invalid request body" StatusBadRequest, σ)
    | Some req =>
        (Encoded (AuthResponse.mk (generateRandomSessionID b)
                                  "Authentication successful"),
         {| orders := orders σ; nextID := nextID σ; sleeping := sleeping σ;
            logged := logged σ ++
                        ["[Auth] User: " +:+ AuthRequest.LoginName req] |})
    end.

Definition handleEnroll (Method : string) (body : option EnrollRequest.t)
    (now : Z) (σ : Server) : Reply EnrollResponse.t * Server :=
  if negb (String.eqb Method MethodPost) then
    (HttpError "Method not allowed" StatusMethodNotAllowed, σ)
  else
    match body with
    | None => (HttpError "Invalid request body" StatusBadRequest, σ)
    | Some req =>
        let r := handleEnroll (EnrollRequest.Csr req) now σ in
        (Encoded r.1, r.2)
    end.

Definition handleStatus (Method Path : string) (σ : Server) : StatusReply :=
  if negb (String.eqb Method MethodGet) then
    StatusError "Method not allowed" StatusMethodNotAllowed
  else
    let pathParts := Strings.Split Path "/" in
    if (length pathParts <? 6)%nat then
      StatusError "Invalid path" StatusBadRequest
    else
      let idStr := default EmptyString (pathParts !! 5%nat) in
      match Go.Sscanf_d idStr with
      | None => StatusError "Invalid Order ID format" StatusBadRequest
      | Some orderID => handleStatus orderID σ
      end.

Definition handleCollect (Method Path : string) (σ : Server) : CollectReply :=
  if negb (String.eqb Method MethodGet) then
    CollectError "Method not allowed" StatusMethodNotAllowed
  else
    let pathParts := Strings.Split Path "/" in
    if (length pathParts <? 6)%nat then
      CollectError "Invalid path" StatusBadRequest
    else
      let idStr := default EmptyString (pathParts !! 5%nat) in
      match Go.Sscanf_d idStr with
      | None => CollectError "Invalid Order ID format" StatusBadRequest
      | Some orderID => handleCollect orderID σ
      end.

Definition handleRevoke (Method : string) (body : option RevokeRequest.t)
    (l : list (Z * Order)) (σ : Server) : Reply RevokeResponse.t * Server :=
  if negb (String.eqb Method MethodPost) then
    (HttpError "Method not allowed" StatusMethodNotAllowed, σ)
  else
    match body with
    | None => (HttpError "Invalid request body" StatusBadRequest, σ)
    | Some req =>
        let r := handleRevoke l (RevokeRequest.SslId req) σ in
        (Encoded r.1, r.2)
    end.

(** What happens to the server: a call of one of the handlers, or the
    wake-up of an issuing goroutine. *)
Inductive call :=
| Auth (Method : string) (body : option AuthRequest.t) (b : list Byte.byte)
| Enroll (Method : string) (body : option EnrollRequest.t) (now : Z)
| GetStatus (Method Path : string)
| Collect (Method Path : string)
| Revoke (Method : string) (body : option RevokeRequest.t)
| Wake (id : Z).

Inductive step : Server → call → Server → Prop :=
| step_auth σ Method body b :
    length b = 16%nat →
    step σ (Auth Method body b) (handleAuth Method body b σ).2
| step_enroll σ Method body now :
    step σ (Enroll Method body now) (handleEnroll Method body now σ).2
| step_status σ Method Path : step σ (GetStatus Method Path) σ
| step_collect σ Method Path : step σ (Collect Method Path) σ
| step_revoke σ Method body l :
    l ≡ₚ map_to_list (orders σ) →
    step σ (Revoke Method body) (handleRevoke Method body l σ).2
| step_wake σ id pre post :
    sleeping σ = pre ++ id :: post →
    step σ (Wake id) (issue id (wake pre post σ)).

Inductive run : Server → list call → Server → Prop :=
| run_nil σ : run σ [] σ
| run_cons σ c σ' cs σ'' : step σ c σ' → run σ' cs σ'' → run σ (c :: cs) σ''.

End HTTP.

(** Two states with the same store: they differ at most in the log. *)
Definition sameStore (σ τ : Server) : Prop :=
  orders σ = orders τ ∧ nextID σ = nextID τ ∧ sleeping σ = sleeping τ.

(** The path under which the status and the certificate of an order are
    asked for. *)
Definition statusPath (idStr : string) : string :=
  "/api/ssl/v1/status/" +:+ idStr.
Definition collectPath (idStr : string) : string :=
  "/api/ssl/v1/collect/" +:+ idStr.

(** How often a byte occurs in a string. *)
Fixpoint occurrences (c : ascii) (s : string) : nat :=
  match s with
  | EmptyString => 0
  | String c' s' => (if Ascii.eqb c' c then 1 else 0) + occurrences c s'
  end.

(** The characters of a string. *)
Fixpoint chars (s : string) : list ascii :=
  match s with
  | EmptyString => []
  | String c s' => c :: chars s'
  end.

(** Reading a hexadecimal character and a hexadecimal string back. *)
Definition fromHexChar (c : ascii) : option N :=
  let n := N_of_ascii c in
  if ((48 <=? n) && (n <=? 57))%N then Some (n - 48)%N
  else if ((97 <=? n) && (n <=? 102))%N then Some (n - 87)%N
  else None.

Fixpoint unhex (s : string) : option (list Byte.byte) :=
  match s with
  | EmptyString => Some []
  | String a (String b s') =>
      match fromHexChar a, fromHexChar b, unhex s' with
      | Some hi, Some lo, Some rest =>
          match Byte.of_N (16 * hi + lo) with
          | Some v => Some (v :: rest)
          | None => None
          end
      | _, _, _ => None
      end
  | String _ EmptyString => None
  end.

(** The three statuses of the comment on [Order.Status]. *)
Definition knownStatus (s : string) : Prop :=
  s = "pending"%string ∨ s = "issued"%string ∨ s = "revoked"%string.

(** ** Facts about the library model *)

Example Sprintf_d_examples :
  Go.Sprintf_d 12345 = "12345"%string ∧ Go.Sprintf_d (-7) = "-7"%string ∧
  Go.Sprintf_d 0 = "0"%string.
Proof. repeat split. Qed.

Example Sscanf_d_examples :
  Go.Sscanf_d "12345" = Some 12345 ∧ Go.Sscanf_d "-7 rest" = Some (-7) ∧
  Go.Sscanf_d "abc" = None ∧ Go.Sscanf_d "1_2" = Some 1 ∧
  Go.Sscanf_d "12345_" = Some 12345 ∧ Go.Sscanf_d "+" = None ∧
  Go.Sscanf_d "" = None ∧
  Go.Sscanf_d (String (ascii_of_nat 10) "12345") = None ∧
  Go.Sscanf_d (String (ascii_of_nat 9) "12345") = Some 12345 ∧
  Go.Sscanf_d (String (ascii_of_nat 194) (String (ascii_of_nat 160) "12345")) =
    Some 12345 ∧
  Go.Sscanf_d (String (ascii_of_nat 227) (String (ascii_of_nat 128)
                 (String (ascii_of_nat 128) "12345"))) = Some 12345 ∧
  Go.Sscanf_d (String (ascii_of_nat 160) "12345") = None ∧
  Go.Sscanf_d "9223372036854775808" = None ∧
  Go.Sscanf_d "-9223372036854775808" = Some Go.minInt.
Proof. repeat split. Qed.

Example counter_wraps : Go.wrap (Go.maxInt + 1) = Go.minInt.
Proof. reflexivity. Qed.

Section GoFacts.

Import Go.

Lemma wrap_small z : minInt ≤ z ≤ maxInt → wrap z = z.
Proof.
  unfold wrap, minInt, maxInt. intros Hz.
  rewrite Z.mod_small by lia. lia.
Qed.

Lemma wrap_succ_wrap z : wrap (wrap z + 1) = wrap (z + 1).
Proof.
  unfold wrap.
  replace ((z + 2 ^ 63) mod 2 ^ 64 - 2 ^ 63 + 1 + 2 ^ 63)
    with ((z + 2 ^ 63) mod 2 ^ 64 + 1) by lia.
  replace (z + 1 + 2 ^ 63) with (z + 2 ^ 63 + 1) by lia.
  f_equal. rewrite Zplus_mod_idemp_l. reflexivity.
Qed.

Lemma decimal_Sprintf_d z : decimal (Sprintf_d z) = Some z.
Proof.
  unfold decimal, Sprintf_d.
  rewrite NilZero.isi.
  - simpl. f_equal. apply DecimalZ.of_to.
  - destruct z; simpl; try discriminate.
    intros [= H]. exact (DecimalPos.Unsigned.to_uint_nonnil _ H).
  - destruct z; simpl; try discriminate.
    intros [= H]. exact (DecimalPos.Unsigned.to_uint_nonnil _ H).
Qed.

Lemma Sprintf_d_inj a b : Sprintf_d a = Sprintf_d b → a = b.
Proof.
  intros H. pose proof (decimal_Sprintf_d a) as Ha.
  rewrite H, decimal_Sprintf_d in Ha. congruence.
Qed.

End GoFacts.

(** ** The loop of [handleRevoke] *)

Section Scan.

Lemma firstMatch_Some SslId l k :
  firstMatch SslId l = Some k →
  ∃ o, (k, o) ∈ l ∧ Go.Sprintf_d (ID o) = SslId.
Proof.
  induction l as [|[k' o'] l IH]; simpl; [discriminate|].
  destruct (String.eqb_spec (Go.Sprintf_d (ID o')) SslId) as [Heq|Hne].
  - intros [= <-]. exists o'. split; [left|exact Heq].
  - intros H. destruct (IH H) as (o & Hin & Ho).
    exists o. split; [right; exact Hin|exact Ho].
Qed.

Lemma firstMatch_None SslId l :
  firstMatch SslId l = None ↔
  ∀ k o, (k, o) ∈ l → Go.Sprintf_d (ID o) ≠ SslId.
Proof.
  induction l as [|[k' o'] l IH]; simpl.
  - split; [|done]. intros _ k o Hin. inversion Hin.
  - destruct (String.eqb_spec (Go.Sprintf_d (ID o')) SslId) as [Heq|Hne].
    + split; [discriminate|]. intros H. exfalso.
      apply (H k' o'); [left|exact Heq].
    + rewrite IH. split.
      * intros H k o [[= -> ->]|Hin]%elem_of_cons; eauto.
      * intros H k o Hin. apply (H k o). right. exact Hin.
Qed.

(** In a store whose orders sit under their own identifiers, the loop finds
    exactly the order that [SslId] renders, whatever the iteration
    order. *)
Lemma firstMatch_keyed σ l X o :
  keyed σ → l ≡ₚ map_to_list (orders σ) → orders σ !! X = Some o →
  firstMatch (Go.Sprintf_d X) l = Some X.
Proof.
  intros Hkey Hl HX.
  destruct (firstMatch (Go.Sprintf_d X) l) as [k|] eqn:Hm.
  - apply firstMatch_Some in Hm as (o' & Hin & Ho').
    rewrite Hl in Hin. apply elem_of_map_to_list in Hin.
    apply Sprintf_d_inj in Ho'. rewrite (Hkey _ _ Hin) in Ho'. by subst.
  - exfalso. rewrite firstMatch_None in Hm.
    apply (Hm X o).
    + rewrite Hl. by apply elem_of_map_to_list.
    + by rewrite (Hkey _ _ HX).
Qed.

End Scan.

(** ** What a step does to the store *)

Section Steps.

Lemma setStatus_sameData s o : sameData o (setStatus s o).
Proof. by repeat split. Qed.

Lemma statusOf_Some σ k s :
  statusOf σ k = Some s ↔ ∃ o, orders σ !! k = Some o ∧ Status o = s.
Proof.
  unfold statusOf. destruct (orders σ !! k) as [o|]; simpl.
  - split; [intros [= <-]; eauto|]. by intros (o' & [= <-] & <-).
  - split; [done|]. by intros (o' & ? & _).
Qed.

(** A revocation leaves every status alone except the one it sets to
    "revoked". *)
Lemma handleRevoke_statusOf l SslId σ k :
  statusOf (handleRevoke l SslId σ).2 k = statusOf σ k ∨
  statusOf (handleRevoke l SslId σ).2 k = Some "revoked"%string.
Proof.
  unfold handleRevoke, statusOf.
  destruct (firstMatch SslId l) as [k'|]; simpl; [|by left].
  destruct (decide (k' = k)) as [->|Hne].
  - rewrite lookup_alter_eq. destruct (orders σ !! k); simpl; auto.
  - rewrite lookup_alter_ne by done. by left.
Qed.

(** Waking the goroutine of [id] leaves every other status alone. *)
Lemma issue_statusOf_ne id σ k :
  id ≠ k → statusOf (issue id σ) k = statusOf σ k.
Proof.
  intros Hne. unfold issue, statusOf.
  destruct (orders σ !! id) as [o|]; simpl; [|done].
  by rewrite lookup_insert_ne.
Qed.

(** An enrolment leaves every status alone except under the identifier it
    hands out. *)
Lemma handleEnroll_statusOf_ne Csr now σ k :
  nextID σ ≠ k → statusOf (handleEnroll Csr now σ).2 k = statusOf σ k.
Proof. intros Hne. unfold statusOf. simpl. by rewrite lookup_insert_ne. Qed.

Lemma keyed_step σ e σ' : keyed σ → step σ e σ' → keyed σ'.
Proof.
  intros Hkey Hstep k o. destruct Hstep as [σ Csr now|σ id pre post _|σ l SslId _].
  - simpl. destruct (decide (nextID σ = k)) as [->|Hne].
    + rewrite lookup_insert_eq. by intros [= <-].
    + rewrite lookup_insert_ne by done. apply Hkey.
  - unfold issue. simpl. destruct (orders σ !! id) as [o'|] eqn:Ho'; simpl.
    + destruct (decide (id = k)) as [->|Hne].
      * rewrite lookup_insert_eq. intros [= <-]. simpl. by apply Hkey.
      * rewrite lookup_insert_ne by done. apply Hkey.
    + apply Hkey.
  - unfold handleRevoke. destruct (firstMatch SslId l) as [k'|]; simpl.
    + destruct (decide (k' = k)) as [->|Hne].
      * rewrite lookup_alter_eq.
        destruct (orders σ !! k) as [o'|] eqn:Ho'; simpl; [|done].
        intros [= <-]. simpl. by apply Hkey.
      * rewrite lookup_alter_ne by done. apply Hkey.
    + apply Hkey.
Qed.

(** Which identifiers are stored after a step. *)
Lemma stored_step σ e σ' k :
  step σ e σ' →
  is_Some (orders σ' !! k) ↔ is_Some (orders σ !! k) ∨ k ∈ enrolled [e].
Proof.
  destruct 1 as [σ Csr now|σ id pre post _|σ l SslId _]; simpl.
  - rewrite lookup_insert_is_Some, list_elem_of_singleton.
    split; [intros [ ->|[_ ?]]; auto|].
    intros [?| ->]; [|by left]. destruct (decide (nextID σ = k)); auto.
  - unfold issue. simpl. destruct (orders σ !! id) as [o'|] eqn:Ho'; simpl.
    + rewrite lookup_insert_is_Some.
      split; [intros [<-|[_ ?]]; eauto|].
      intros [?|[]%elem_of_nil]. destruct (decide (id = k)); auto.
    + split; [auto|]. by intros [?|[]%elem_of_nil].
  - unfold handleRevoke. destruct (firstMatch SslId l) as [k'|]; simpl.
    + rewrite lookup_alter_is_Some.
      split; [auto|]. by intros [?|[]%elem_of_nil].
    + split; [auto|]. by intros [?|[]%elem_of_nil].
Qed.

End Steps.

(** ** Invariants of the runs *)

Section Runs.

Lemma enrolled_cons e t : enrolled (e :: t) = enrolled [e] ++ enrolled t.
Proof. by destruct e. Qed.

Lemma enrolled_app t1 t2 : enrolled (t1 ++ t2) = enrolled t1 ++ enrolled t2.
Proof.
  induction t1 as [|e t1 IH]; [done|].
  rewrite <- app_comm_cons, (enrolled_cons e t1), (enrolled_cons e (t1 ++ t2)), IH.
  by rewrite app_assoc.
Qed.

Lemma enrolments_cons e t : enrolments (e :: t) = enrolments [e] + enrolments t.
Proof.
  unfold enrolments. rewrite (enrolled_cons e t), length_app. lia.
Qed.

Lemma enrolments_app t1 t2 :
  enrolments (t1 ++ t2) = enrolments t1 + enrolments t2.
Proof. unfold enrolments. rewrite enrolled_app, length_app. lia. Qed.

Lemma enrolments_nonneg t : 0 ≤ enrolments t.
Proof. unfold enrolments. lia. Qed.

Lemma keyed_run σ t σ' : keyed σ → run σ t σ' → keyed σ'.
Proof.
  intros Hkey Hrun. induction Hrun as [|σ e σ' t σ'' Hstep Hrun IH]; [done|].
  apply IH. by eapply keyed_step.
Qed.

Lemma stored_run σ t σ' k :
  run σ t σ' →
  is_Some (orders σ' !! k) ↔ is_Some (orders σ !! k) ∨ k ∈ enrolled t.
Proof.
  induction 1 as [σ|σ e σ' t σ'' Hstep Hrun IH].
  - simpl. split; [auto|]. by intros [?|[]%elem_of_nil].
  - rewrite IH, (stored_step _ _ _ k Hstep), (enrolled_cons e t), elem_of_app.
    tauto.
Qed.

Lemma sleeping_step σ e σ' k :
  step σ e σ' → k ∈ sleeping σ' → k ∈ sleeping σ ∨ k ∈ enrolled [e].
Proof.
  destruct 1 as [σ Csr now|σ id pre post Hs|σ l SslId _].
  - simpl. rewrite elem_of_app. tauto.
  - assert (sleeping (issue id (wake pre post σ)) = pre ++ post) as ->.
    { unfold issue. simpl. by destruct (orders σ !! id). }
    rewrite Hs, !elem_of_app, elem_of_cons. tauto.
  - unfold handleRevoke. destruct (firstMatch SslId l); simpl; auto.
Qed.

(** The counter of enrolments: where [nextID] stands and which orders are
    stored after a step and after a run. *)
Lemma counted_initial : counted 0 initial.
Proof.
  split; [done|]. split; [done|]. split; [|split].
  - intros k [o Ho]. simpl in Ho. by rewrite lookup_empty in Ho.
  - intros k []%elem_of_nil.
  - intros k o Ho. simpl in Ho. by rewrite lookup_empty in Ho.
Qed.

Lemma nextID_step σ e σ' :
  step σ e σ' →
  nextID σ' = match enrolled [e] with
              | [] => nextID σ
              | _ => Go.wrap (nextID σ + 1)
              end.
Proof.
  destruct 1 as [σ Csr now|σ id pre post _|σ l SslId _]; simpl.
  - done.
  - unfold issue. simpl. by destruct (orders σ !! id).
  - unfold handleRevoke. by destruct (firstMatch SslId l).
Qed.

Lemma enrolled_step σ e σ' :
  step σ e σ' → enrolled [e] = [] ∨ enrolled [e] = [nextID σ].
Proof. destruct 1; simpl; auto. Qed.

Lemma counted_step n σ e σ' :
  counted n σ → step σ e σ' → counted (n + enrolments [e]) σ'.
Proof.
  intros (Hn & Hnext & Hdom & Hsleep & Hkey) Hstep.
  pose proof (nextID_step _ _ _ Hstep) as Hnext'.
  pose proof (enrolled_step _ _ _ Hstep) as He.
  assert (∀ k, k ∈ enrolled [e] →
               enrolments [e] = 1 ∧ k = Go.wrap (12345 + n)) as Hnew.
  { intros k Hk. unfold enrolments. destruct He as [He|He]; rewrite He in Hk |- *.
    - by apply elem_of_nil in Hk.
    - apply list_elem_of_singleton in Hk. simpl. split; [done|congruence]. }
  pose proof (enrolments_nonneg [e]) as Hpos.
  split; [lia|]. split; [|split; [|split]].
  - rewrite Hnext'. unfold enrolments.
    destruct He as [He|He]; rewrite He; simpl.
    + rewrite Hnext. f_equal. lia.
    + rewrite Hnext, wrap_succ_wrap. f_equal. lia.
  - intros k Hk. apply (stored_step _ _ _ k Hstep) in Hk as [Hk|Hk].
    + destruct (Hdom k Hk) as (i & Hi & ->). exists i. split; [lia|done].
    + destruct (Hnew k Hk) as [-> ->]. exists n. split; [lia|done].
  - intros k Hk. apply (stored_step _ _ _ k Hstep).
    destruct (sleeping_step _ _ _ k Hstep Hk) as [H|H]; auto.
  - by eapply keyed_step.
Qed.

Lemma counted_run n σ t σ' :
  counted n σ → run σ t σ' → counted (n + enrolments t) σ'.
Proof.
  intros Hc Hrun. revert n Hc.
  induction Hrun as [σ|σ e σ' t σ'' Hstep Hrun IH]; intros n Hc.
  - unfold enrolments. simpl. by rewrite Z.add_0_r.
  - rewrite enrolments_cons, Z.add_assoc. apply IH. by eapply counted_step.
Qed.

(** The identifiers handed out along a run are the successive values of
    the counter. *)
Lemma enrolled_run m σ t σ' i id :
  run σ t σ' → nextID σ = Go.wrap m → enrolled t !! i = Some id →
  id = Go.wrap (m + Z.of_nat i).
Proof.
  intros Hrun. revert m i.
  induction Hrun as [σ|σ e σ' t σ'' Hstep Hrun IH]; intros m i Hm Hi.
  - simpl in Hi. by rewrite lookup_nil in Hi.
  - pose proof (nextID_step _ _ _ Hstep) as Hnext.
    rewrite (enrolled_cons e t) in Hi.
    destruct (enrolled_step _ _ _ Hstep) as [He|He]; rewrite He in Hi, Hnext.
    + simpl in Hi. apply (IH m i); [congruence|done].
    + destruct i as [|i]; simpl in Hi.
      * injection Hi as <-. rewrite Hm. f_equal. lia.
      * rewrite (IH (m + 1) i); [f_equal; lia| |done].
        by rewrite Hnext, Hm, wrap_succ_wrap.
Qed.

(** While the counter has not run over, an identifier that is stored lies
    below the counter: the next enrolment takes a fresh one. *)
Lemma counted_fresh n σ k :
  counted n σ → 12345 + n < 2 ^ 63 → is_Some (orders σ !! k) →
  nextID σ ≠ k.
Proof.
  intros (Hn & Hnext & Hdom & _) Hb Hk.
  destruct (Hdom k Hk) as (i & Hi & ->).
  rewrite Hnext, !wrap_small by (unfold Go.minInt, Go.maxInt; lia). lia.
Qed.

End Runs.

(** ** Identifiers *)

(** C2. Along every run from the initial state whose enrolments stay within
    the range of [int] (the last identifier handed out is at most the
    largest [int]; a longer run would have to keep more orders than an
    address space holds), the identifiers returned by the enrolments are,
    in order, 12345, 12346, ...: the i-th one is 12345 + i, so they start
    at the base value, increase strictly and are pairwise distinct. *)
Theorem enrolled_strictly_increasing t σ :
  run initial t σ → 12345 + enrolments t ≤ 2 ^ 63 →
  (∀ i id, enrolled t !! i = Some id → id = 12345 + Z.of_nat i) ∧
  (∀ i j a b, (i < j)%nat →
     enrolled t !! i = Some a → enrolled t !! j = Some b → a < b) ∧
  NoDup (enrolled t).
Proof.
  intros Hrun Hb.
  assert (∀ i id, enrolled t !! i = Some id → id = 12345 + Z.of_nat i) as Hid.
  { intros i id Hi.
    pose proof (lookup_lt_Some _ _ _ Hi) as Hlt. unfold enrolments in Hb.
    rewrite (enrolled_run 12345 _ _ _ i id Hrun eq_refl Hi).
    apply wrap_small. unfold Go.minInt, Go.maxInt. lia. }
  split; [exact Hid|]. split.
  - intros i j a b Hij Ha Hb'. rewrite (Hid _ _ Ha), (Hid _ _ Hb'). lia.
  - apply NoDup_alt. intros i j a Ha Hb'.
    pose proof (Hid _ _ Ha). pose proof (Hid _ _ Hb'). lia.
Qed.

Lemma enrolled_strictly_increasing_witness :
  let e1 := Enroll "CSR-A" 1000 (EnrollResponse.mk 12345 "Order created successfully") in
  let e2 := Revoke "12345" (RevokeResponse.mk "success" "Certificate revoked") in
  let e3 := Enroll "CSR-B" 1001 (EnrollResponse.mk 12346 "Order created successfully") in
  let e4 := Issue 12346 in
  let e5 := Enroll "" 1002 (EnrollResponse.mk 12347 "Order created successfully") in
  let t := [e1; e2; e3; e4; e5] in
  ∃ σ, run initial t σ ∧ 12345 + enrolments t ≤ 2 ^ 63 ∧
       enrolled t = [12345; 12346; 12347] ∧
       (∀ i j a b, (i < j)%nat →
          enrolled t !! i = Some a → enrolled t !! j = Some b → a < b) ∧
       NoDup (enrolled t).
Proof.
  intros e1 e2 e3 e4 e5 t.
  pose (σ1 := (handleEnroll "CSR-A" 1000 initial).2).
  pose (σ2 := (handleRevoke (map_to_list (orders σ1)) "12345" σ1).2).
  pose (σ3 := (handleEnroll "CSR-B" 1001 σ2).2).
  pose (σ4 := issue 12346 (wake [12345] [] σ3)).
  pose (σ5 := (handleEnroll "" 1002 σ4).2).
  assert (run initial t σ5) as Hrun.
  { eapply run_cons; [exact (step_enroll initial "CSR-A" 1000)|].
    eapply run_cons;
      [exact (step_revoke σ1 (map_to_list (orders σ1)) "12345" (reflexivity _))|].
    eapply run_cons; [exact (step_enroll σ2 "CSR-B" 1001)|].
    eapply run_cons; [exact (step_issue σ3 12346 [12345] [] eq_refl)|].
    eapply run_cons; [exact (step_enroll σ4 "" 1002)|].
    apply run_nil. }
  assert (12345 + enrolments t ≤ 2 ^ 63) as Hb by (vm_compute; discriminate).
  exists σ5. split; [exact Hrun|]. split; [exact Hb|]. split; [reflexivity|].
  exact (proj2 (enrolled_strictly_increasing t σ5 Hrun Hb)).
Defined.

(** ** Enrolment and the read handlers *)

(** C3. An enrolment is defined for every request string and every state:
    it answers with a fresh response carrying the identifier, stores under
    that identifier an order that is pending, holds the request string as
    it came and the placeholder certificate, and leaves the other entries
    alone; right afterwards the status handler reports "pending" for the
    identifier and the collect handler answers "not ready". *)
Theorem enroll_stores_pending Csr now σ :
  let resp := (handleEnroll Csr now σ).1 in
  let σ' := (handleEnroll Csr now σ).2 in
  let X := EnrollResponse.SslId resp in
  step σ (Enroll Csr now resp) σ' ∧
  resp = EnrollResponse.mk (nextID σ) "Order created successfully" ∧
  orders σ' !! X =
    Some {| ID := X; CSR := Csr; Status := "pending";
            Certificate := generateFakeCert; CreatedAt := now |} ∧
  delete X (orders σ') = delete X (orders σ) ∧
  handleStatus X σ' = StatusJSON X "pending" ∧
  handleCollect X σ' =
    CollectError "Certificate not ready (status: pending)" StatusBadRequest.
Proof.
  intros resp σ' X. subst resp σ' X.
  split; [apply step_enroll|]. split; [done|].
  unfold handleStatus, handleCollect. simpl.
  rewrite lookup_insert_eq. split; [done|]. split; [|done].
  apply delete_insert_eq.
Qed.

(** C4. For a stored order the collect handler sends a file exactly when
    the status is "issued", and the file is the certificate of the order;
    otherwise it answers "not ready" with code 400, which differs from the
    "not found" answer (code 404) given for an identifier that is not
    stored. *)
Theorem collect_exactly_when_issued σ id o :
  orders σ !! id = Some o →
  (∀ name body,
     handleCollect id σ = CollectFile name body ↔
     Status o = "issued"%string ∧ name = Go.Sprintf_d id +:+ ".crt" ∧
     body = Certificate o) ∧
  (Status o ≠ "issued"%string →
     handleCollect id σ =
       CollectError ("Certificate not ready (status: " +:+ Status o +:+ ")")
                    StatusBadRequest) ∧
  handleCollect id σ ≠ CollectError "Order not found" StatusNotFound ∧
  (∀ σ0 id0, orders σ0 !! id0 = None →
     handleCollect id0 σ0 = CollectError "Order not found" StatusNotFound).
Proof.
  intros Ho. unfold handleCollect. rewrite Ho.
  destruct (String.eqb_spec (Status o) "issued") as [Heq|Hne]; simpl.
  - split; [|split; [|split]].
    + intros name body. split.
      * by intros [= <- <-].
      * by intros (_ & -> & ->).
    + done.
    + discriminate.
    + by intros σ0 id0 ->.
  - split; [|split; [|split]].
    + intros name body. split; [discriminate|]. by intros (? & _).
    + done.
    + intros H. by inversion H.
    + by intros σ0 id0 ->.
Qed.

Lemma collect_exactly_when_issued_witness :
  let σ := issue 12345 (handleEnroll "CSR-A" 1000 initial).2 in
  let o := {| ID := 12345; CSR := "CSR-A"; Status := "issued";
              Certificate := generateFakeCert; CreatedAt := 1000 |} in
  orders σ !! 12345 = Some o ∧
  handleCollect 12345 σ = CollectFile "12345.crt" generateFakeCert ∧
  handleCollect 12345 (handleEnroll "CSR-A" 1000 initial).2 =
    CollectError "Certificate not ready (status: pending)" 400 ∧
  handleCollect 12346 σ = CollectError "Order not found" 404.
Proof.
  intros σ o.
  assert (orders σ !! 12345 = Some o) as Ho by reflexivity.
  destruct (collect_exactly_when_issued σ 12345 o Ho) as (Hfile & _ & _ & Hnone).
  split; [exact Ho|]. split; [|split].
  - apply Hfile. by repeat split.
  - reflexivity.
  - apply Hnone. reflexivity.
Defined.

(** C7. After any run from the initial state, an identifier that no
    enrolment of the run has returned is unknown to both read handlers:
    each answers "Order not found" with code 404. *)
Theorem never_enrolled_not_found t σ id :
  run initial t σ → id ∉ enrolled t →
  handleStatus id σ = StatusError "Order not found" StatusNotFound ∧
  handleCollect id σ = CollectError "Order not found" StatusNotFound.
Proof.
  intros Hrun Hid.
  assert (orders σ !! id = None) as Hnone.
  { apply eq_None_not_Some. intros Hs.
    apply (stored_run _ _ _ id Hrun) in Hs as [[o Ho]|Hin]; [|done].
    simpl in Ho. by rewrite lookup_empty in Ho. }
  unfold handleStatus, handleCollect. by rewrite Hnone.
Qed.

Lemma never_enrolled_not_found_witness :
  let e1 := Enroll "CSR-A" 1000 (EnrollResponse.mk 12345 "Order created successfully") in
  let e2 := Issue 12345 in
  let σ1 := (handleEnroll "CSR-A" 1000 initial).2 in
  let σ2 := issue 12345 (wake [] [] σ1) in
  run initial [e1; e2] σ2 ∧ (12346 ∉ enrolled [e1; e2]) ∧
  handleStatus 12346 σ2 = StatusError "Order not found" 404 ∧
  handleCollect 12346 σ2 = CollectError "Order not found" 404.
Proof.
  intros e1 e2 σ1 σ2.
  assert (run initial [e1; e2] σ2) as Hrun.
  { eapply run_cons; [exact (step_enroll initial "CSR-A" 1000)|].
    eapply run_cons; [exact (step_issue σ1 12345 [] [] eq_refl)|].
    apply run_nil. }
  assert (12346 ∉ enrolled [e1; e2]) as Hid.
  { simpl. intros H. apply elem_of_cons in H as [H|H]; [discriminate|].
    by apply elem_of_nil in H. }
  split; [exact Hrun|]. split; [exact Hid|].
  exact (never_enrolled_not_found [e1; e2] σ2 12346 Hrun Hid).
Defined.

(** ** The issuing goroutine *)

(** C8. When the goroutine started for identifier [id] wakes up and an
    order is stored under [id], the order becomes "issued": the status
    handler then reports "issued" and the collect handler sends the
    certificate the order already held.  When no order is stored under
    [id], the goroutine ends without a trace: the orders, the counter and
    the log are as before. *)
Theorem issue_step_effect σ id σ' :
  step σ (Issue id) σ' →
  match orders σ !! id with
  | Some o =>
      orders σ' !! id = Some (setStatus "issued" o) ∧
      handleStatus id σ' = StatusJSON id "issued" ∧
      handleCollect id σ' =
        CollectFile (Go.Sprintf_d id +:+ ".crt") (Certificate o)
  | None =>
      orders σ' = orders σ ∧ nextID σ' = nextID σ ∧ logged σ' = logged σ
  end.
Proof.
  intros Hstep. inversion Hstep as [|σ0 id0 pre post Hs|]; subst.
  unfold issue, handleStatus, handleCollect. simpl.
  destruct (orders σ !! id) as [o|] eqn:Ho; simpl.
  - by rewrite lookup_insert_eq.
  - done.
Qed.

Lemma issue_step_effect_witness :
  let σ1 := (handleEnroll "CSR-A" 1000 initial).2 in
  let σ2 := issue 12345 (wake [] [] σ1) in
  step σ1 (Issue 12345) σ2 ∧
  handleStatus 12345 σ2 = StatusJSON 12345 "issued" ∧
  handleCollect 12345 σ2 = CollectFile "12345.crt" generateFakeCert.
Proof.
  intros σ1 σ2.
  assert (step σ1 (Issue 12345) σ2) as Hstep
    by exact (step_issue σ1 12345 [] [] eq_refl).
  split; [exact Hstep|].
  exact (proj2 (issue_step_effect σ1 12345 σ2 Hstep)).
Defined.

(** ** Revocation *)

Lemma step_revoke_inv σ SslId resp σ' :
  step σ (Revoke SslId resp) σ' →
  ∃ l, l ≡ₚ map_to_list (orders σ) ∧
       resp = (handleRevoke l SslId σ).1 ∧ σ' = (handleRevoke l SslId σ).2.
Proof.
  intros Hstep. inversion Hstep as [| |σ0 l s0 Hl]; subst. by exists l.
Qed.

Lemma keyed_initial : keyed initial.
Proof. intros k o Ho. simpl in Ho. by rewrite lookup_empty in Ho. Qed.

(** The revocation of a stored order by the rendering of its identifier,
    in a store whose orders sit under their own identifiers. *)
Lemma handleRevoke_stored σ l X o :
  keyed σ → l ≡ₚ map_to_list (orders σ) → orders σ !! X = Some o →
  handleRevoke l (Go.Sprintf_d X) σ =
    (revokeSuccess,
     {| orders := alter (setStatus "revoked") X (orders σ);
        nextID := nextID σ; sleeping := sleeping σ; logged := logged σ |}).
Proof.
  intros Hkey Hl Ho. unfold handleRevoke.
  by rewrite (firstMatch_keyed σ l X o Hkey Hl Ho).
Qed.

(** Revoking an order that is revoked already changes nothing. *)
Lemma handleRevoke_again σ l X o :
  keyed σ → l ≡ₚ map_to_list (orders σ) → orders σ !! X = Some o →
  Status o = "revoked"%string →
  handleRevoke l (Go.Sprintf_d X) σ = (revokeSuccess, σ).
Proof.
  intros Hkey Hl Ho Hst. rewrite (handleRevoke_stored σ l X o Hkey Hl Ho).
  f_equal. destruct σ as [m n s g]. simpl in *. f_equal.
  apply alter_id. intros o' Ho'. rewrite Ho in Ho'. injection Ho' as <-.
  destruct o as [i c st ce ti]. simpl in *. by subst st.
Qed.

(** C5. In every reachable state, revoking a stored order by the decimal
    rendering of its identifier answers "success" and leaves the order
    "revoked", whatever its status was and whatever order the loop visits
    the entries in; doing it again answers "success" again and changes
    nothing at all. *)
Theorem revoke_stored_twice t σ X o resp σ1 resp' σ2 :
  run initial t σ → orders σ !! X = Some o →
  step σ (Revoke (Go.Sprintf_d X) resp) σ1 →
  step σ1 (Revoke (Go.Sprintf_d X) resp') σ2 →
  resp = revokeSuccess ∧
  orders σ1 !! X = Some (setStatus "revoked" o) ∧
  resp' = revokeSuccess ∧
  statusOf σ2 X = Some "revoked"%string ∧
  σ2 = σ1.
Proof.
  intros Hrun Ho Hs1 Hs2.
  pose proof (keyed_run _ _ _ keyed_initial Hrun) as Hkey.
  pose proof (keyed_step _ _ _ Hkey Hs1) as Hkey1.
  apply step_revoke_inv in Hs1 as (l & Hl & Hr1 & Hσ1).
  rewrite (handleRevoke_stored σ l X o Hkey Hl Ho) in Hr1, Hσ1.
  simpl in Hr1, Hσ1.
  assert (orders σ1 !! X = Some (setStatus "revoked" o)) as Ho1.
  { rewrite Hσ1. simpl. by rewrite lookup_alter_eq, Ho. }
  apply step_revoke_inv in Hs2 as (l' & Hl' & Hr2 & Hσ2).
  rewrite (handleRevoke_again σ1 l' X _ Hkey1 Hl' Ho1 eq_refl) in Hr2, Hσ2.
  simpl in Hr2, Hσ2.
  split; [exact Hr1|]. split; [exact Ho1|]. split; [exact Hr2|]. split.
  - rewrite Hσ2. unfold statusOf. by rewrite Ho1.
  - exact Hσ2.
Qed.

(** When the loop finds no entry, the handler gives the state back. *)
Lemma handleRevoke_unmatched σ l SslId :
  l ≡ₚ map_to_list (orders σ) →
  (∀ k o, orders σ !! k = Some o → Go.Sprintf_d (ID o) ≠ SslId) →
  handleRevoke l SslId σ = (revokeFailure, σ).
Proof.
  intros Hl Hno.
  assert (firstMatch SslId l = None) as Hnone.
  { apply firstMatch_None. intros k o Hin. apply (Hno k).
    rewrite Hl in Hin. by apply elem_of_map_to_list. }
  unfold handleRevoke. by rewrite Hnone.
Qed.

(** C6. A revocation by a string that is the rendering of no stored
    identifier answers "failure" and leaves the whole state, and so every
    field of every order, as it was. *)
Theorem revoke_unmatched σ SslId resp σ' :
  (∀ k o, orders σ !! k = Some o → Go.Sprintf_d (ID o) ≠ SslId) →
  step σ (Revoke SslId resp) σ' →
  resp = revokeFailure ∧ σ' = σ.
Proof.
  intros Hno (l & Hl & -> & ->)%step_revoke_inv.
  by rewrite (handleRevoke_unmatched σ l SslId Hl Hno).
Qed.

Lemma revoke_stored_twice_witness :
  let e1 := Enroll "CSR-A" 1000 (EnrollResponse.mk 12345 "Order created successfully") in
  let e2 := Issue 12345 in
  let σ1 := (handleEnroll "CSR-A" 1000 initial).2 in
  let σ2 := issue 12345 (wake [] [] σ1) in
  let σ3 := (handleRevoke (map_to_list (orders σ2)) "12345" σ2).2 in
  let σ4 := (handleRevoke (map_to_list (orders σ3)) "12345" σ3).2 in
  let o := {| ID := 12345; CSR := "CSR-A"; Status := "issued";
              Certificate := generateFakeCert; CreatedAt := 1000 |} in
  run initial [e1; e2] σ2 ∧ orders σ2 !! 12345 = Some o ∧
  step σ2 (Revoke "12345" revokeSuccess) σ3 ∧
  step σ3 (Revoke "12345" revokeSuccess) σ4 ∧
  orders σ3 !! 12345 = Some (setStatus "revoked" o) ∧
  statusOf σ4 12345 = Some "revoked"%string ∧ σ4 = σ3.
Proof.
  intros e1 e2 σ1 σ2 σ3 σ4 o.
  assert (run initial [e1; e2] σ2) as Hrun.
  { eapply run_cons; [exact (step_enroll initial "CSR-A" 1000)|].
    eapply run_cons; [exact (step_issue σ1 12345 [] [] eq_refl)|].
    apply run_nil. }
  assert (orders σ2 !! 12345 = Some o) as Ho by reflexivity.
  assert (step σ2 (Revoke (Go.Sprintf_d 12345) revokeSuccess) σ3) as Hs1
    by exact (step_revoke σ2 (map_to_list (orders σ2)) "12345" (reflexivity _)).
  assert (step σ3 (Revoke (Go.Sprintf_d 12345) revokeSuccess) σ4) as Hs2
    by exact (step_revoke σ3 (map_to_list (orders σ3)) "12345" (reflexivity _)).
  destruct (revoke_stored_twice [e1; e2] σ2 12345 o _ σ3 _ σ4 Hrun Ho Hs1 Hs2)
    as (_ & H3 & _ & H4 & Heq).
  split; [exact Hrun|]. split; [exact Ho|]. split; [exact Hs1|].
  split; [exact Hs2|]. split; [exact H3|]. split; [exact H4|exact Heq].
Defined.

Lemma revoke_unmatched_witness :
  let σ1 := (handleEnroll "CSR-A" 1000 initial).2 in
  let σ2 := (handleRevoke (map_to_list (orders σ1)) "99999" σ1).2 in
  (∀ k o, orders σ1 !! k = Some o → Go.Sprintf_d (ID o) ≠ "99999"%string) ∧
  step σ1 (Revoke "99999" revokeFailure) σ2 ∧ σ2 = σ1.
Proof.
  intros σ1 σ2.
  assert (∀ k o, orders σ1 !! k = Some o →
                 Go.Sprintf_d (ID o) ≠ "99999"%string) as Hno.
  { intros k o Ho. simpl in Ho. destruct (decide (12345 = k)) as [<-|Hne].
    - rewrite lookup_insert_eq in Ho. injection Ho as <-. discriminate.
    - rewrite lookup_insert_ne, lookup_empty in Ho by done. discriminate. }
  assert (step σ1 (Revoke "99999" revokeFailure) σ2) as Hstep
    by exact (step_revoke σ1 (map_to_list (orders σ1)) "99999" (reflexivity _)).
  split; [exact Hno|]. split; [exact Hstep|].
  exact (proj2 (revoke_unmatched σ1 "99999" revokeFailure σ2 Hno Hstep)).
Defined.

(** ** What the mutations leave alone *)

(** C9. A wake-up of an issuing goroutine and a revocation neither add nor
    remove an order and leave the counter alone; they change at most one
    order, and of that order nothing but the status.  Along a run whose
    enrolments stay within the range of [int], no step of any kind changes
    the identifier, the request string, the certificate or the creation
    time of an order that is stored. *)
Theorem mutations_frame :
  (∀ σ e σ', step σ e σ' → isEnroll e = false →
     dom (orders σ') = dom (orders σ) ∧ nextID σ' = nextID σ ∧
     (∀ k o, orders σ !! k = Some o →
        ∃ s, orders σ' !! k = Some (setStatus s o)) ∧
     (∃ k0, delete k0 (orders σ') = delete k0 (orders σ))) ∧
  (∀ t σ e σ', run initial t σ → step σ e σ' →
     12345 + enrolments (t ++ [e]) ≤ 2 ^ 63 →
     ∀ k o, orders σ !! k = Some o →
       ∃ o', orders σ' !! k = Some o' ∧ sameData o o').
Proof.
  assert (∀ o, setStatus (Status o) o = o) as Hsame by (by intros []).
  assert (∀ σ e σ', step σ e σ' → isEnroll e = false →
     dom (orders σ') = dom (orders σ) ∧ nextID σ' = nextID σ ∧
     (∀ k o, orders σ !! k = Some o →
        ∃ s, orders σ' !! k = Some (setStatus s o)) ∧
     (∃ k0, delete k0 (orders σ') = delete k0 (orders σ))) as Hmut.
  { intros σ e σ' Hstep He.
    destruct Hstep as [σ Csr now|σ id pre post _|σ l SslId _]; [done| |].
    - unfold issue. simpl. destruct (orders σ !! id) as [o'|] eqn:Ho'; simpl.
      + split; [by apply dom_insert_lookup_L|]. split; [done|]. split.
        * intros k o Ho. destruct (decide (id = k)) as [->|Hne].
          -- rewrite lookup_insert_eq. exists "issued"%string. congruence.
          -- rewrite lookup_insert_ne by done. exists (Status o).
             by rewrite Hsame.
        * exists id. apply delete_insert_eq.
      + split; [done|]. split; [done|]. split; [|by exists 0].
        intros k o Ho. exists (Status o). by rewrite Hsame.
    - unfold handleRevoke. destruct (firstMatch SslId l) as [k'|]; simpl.
      + split; [apply dom_alter_L|]. split; [done|]. split.
        * intros k o Ho. destruct (decide (k' = k)) as [->|Hne].
          -- rewrite lookup_alter_eq, Ho. by exists "revoked"%string.
          -- rewrite lookup_alter_ne by done. exists (Status o).
             by rewrite Hsame.
        * exists k'. apply map_eq. intros k.
          destruct (decide (k' = k)) as [->|Hne].
          -- by rewrite !lookup_delete_eq.
          -- by rewrite !lookup_delete_ne, lookup_alter_ne.
      + split; [done|]. split; [done|]. split; [|by exists 0].
        intros k o Ho. exists (Status o). by rewrite Hsame. }
  split; [exact Hmut|].
  intros t σ e σ' Hrun Hstep Hb k o Ho.
  destruct (isEnroll e) eqn:He.
  - destruct Hstep as [σ Csr now| |]; try discriminate He.
    pose proof (counted_run 0 _ _ _ counted_initial Hrun) as Hc.
    rewrite enrolments_app in Hb. unfold enrolments at 2 in Hb. simpl in Hb.
    assert (nextID σ ≠ k) as Hne.
    { apply (counted_fresh _ _ _ Hc); [lia|by exists o]. }
    exists o. simpl. rewrite lookup_insert_ne by done. by repeat split.
  - destruct (Hmut σ e σ' Hstep He) as (_ & _ & Hk & _).
    destruct (Hk k o Ho) as [s Hs]. exists (setStatus s o).
    split; [exact Hs|apply setStatus_sameData].
Qed.

Lemma mutations_frame_witness :
  let e1 := Enroll "CSR-A" 1000 (EnrollResponse.mk 12345 "Order created successfully") in
  let σ1 := (handleEnroll "CSR-A" 1000 initial).2 in
  let σ2 := issue 12345 (wake [] [] σ1) in
  let o := {| ID := 12345; CSR := "CSR-A"; Status := "pending";
              Certificate := generateFakeCert; CreatedAt := 1000 |} in
  run initial [e1] σ1 ∧ step σ1 (Issue 12345) σ2 ∧
  isEnroll (Issue 12345) = false ∧
  12345 + enrolments ([e1] ++ [Issue 12345]) ≤ 2 ^ 63 ∧
  orders σ1 !! 12345 = Some o ∧
  dom (orders σ2) = dom (orders σ1) ∧ nextID σ2 = nextID σ1 ∧
  (∃ o', orders σ2 !! 12345 = Some o' ∧ sameData o o').
Proof.
  intros e1 σ1 σ2 o.
  assert (run initial [e1] σ1) as Hrun.
  { eapply run_cons; [exact (step_enroll initial "CSR-A" 1000)|]. apply run_nil. }
  assert (step σ1 (Issue 12345) σ2) as Hstep
    by exact (step_issue σ1 12345 [] [] eq_refl).
  assert (12345 + enrolments ([e1] ++ [Issue 12345]) ≤ 2 ^ 63) as Hb
    by (vm_compute; discriminate).
  assert (orders σ1 !! 12345 = Some o) as Ho by reflexivity.
  destruct mutations_frame as [Hmut Hdata].
  destruct (Hmut σ1 (Issue 12345) σ2 Hstep eq_refl) as (Hdom & Hnext & _ & _).
  split; [exact Hrun|]. split; [exact Hstep|]. split; [reflexivity|].
  split; [exact Hb|]. split; [exact Ho|]. split; [exact Hdom|].
  split; [exact Hnext|].
  exact (Hdata [e1] σ1 (Issue 12345) σ2 Hrun Hstep Hb 12345 o Ho).
Defined.

(** ** The life cycle *)

Section LifeCycle.

(** A step other than the wake-up of the order's own goroutine keeps a
    revoked order revoked, as long as the counter has not run over. *)
Lemma revoked_step n σ e σ' k :
  counted n σ → 12345 + n + enrolments [e] ≤ 2 ^ 63 → step σ e σ' →
  statusOf σ k = Some "revoked"%string → e ≠ Issue k →
  statusOf σ' k = Some "revoked"%string.
Proof.
  intros Hc Hb Hstep Hk He.
  destruct Hstep as [σ Csr now|σ id pre post _|σ l SslId _].
  - rewrite handleEnroll_statusOf_ne; [done|].
    unfold enrolments in Hb. simpl in Hb.
    apply (counted_fresh _ _ _ Hc); [lia|].
    apply statusOf_Some in Hk as (o & Ho & _). by exists o.
  - rewrite issue_statusOf_ne; [done|]. congruence.
  - destruct (handleRevoke_statusOf l SslId σ k) as [H|H]; by rewrite H.
Qed.

(** An order whose goroutine is gone never gets one again. *)
Lemma woken_step n σ e σ' k :
  counted n σ → 12345 + n + enrolments [e] ≤ 2 ^ 63 → step σ e σ' →
  is_Some (orders σ !! k) → k ∉ sleeping σ →
  (k ∉ sleeping σ') ∧ e ≠ Issue k.
Proof.
  intros Hc Hb Hstep Hk Hs.
  destruct Hstep as [σ Csr now|σ id pre post Hsl|σ l SslId _].
  - split; [|done]. simpl. rewrite elem_of_app, list_elem_of_singleton.
    unfold enrolments in Hb. simpl in Hb.
    assert (nextID σ ≠ k) by (apply (counted_fresh _ _ _ Hc); [lia|done]).
    intros [?|?]; [done|congruence].
  - rewrite Hsl in Hs. rewrite elem_of_app, elem_of_cons in Hs.
    assert (sleeping (issue id (wake pre post σ)) = pre ++ post) as ->.
    { unfold issue. simpl. by destruct (orders σ !! id). }
    rewrite elem_of_app. split; [tauto|]. intros [= ->]. tauto.
  - split; [|done]. unfold handleRevoke.
    by destruct (firstMatch SslId l).
Qed.

Lemma revoked_run n σ t σ' k :
  counted n σ → run σ t σ' → 12345 + n + enrolments t ≤ 2 ^ 63 →
  statusOf σ k = Some "revoked"%string →
  (Issue k ∉ t) ∨ (k ∉ sleeping σ) →
  statusOf σ' k = Some "revoked"%string.
Proof.
  intros Hc Hrun. revert n Hc.
  induction Hrun as [σ|σ e σ' t σ'' Hstep Hrun IH]; intros n Hc Hb Hk Hor.
  - done.
  - rewrite enrolments_cons in Hb. pose proof (enrolments_nonneg t) as Ht.
    pose proof (enrolments_nonneg [e]) as He.
    assert (is_Some (orders σ !! k)) as Hst.
    { apply statusOf_Some in Hk as (o & Ho & _). by exists o. }
    assert (e ≠ Issue k ∧ ((Issue k ∉ t) ∨ (k ∉ sleeping σ'))) as [Hne Hor'].
    { destruct Hor as [Hnot|Hs].
      - rewrite not_elem_of_cons in Hnot. destruct Hnot as [Hne Hnot]. auto.
      - destruct (woken_step n σ e σ' k Hc ltac:(lia) Hstep Hst Hs). auto. }
    apply (IH (n + enrolments [e])).
    + by eapply counted_step.
    + lia.
    + apply (revoked_step n σ e σ' k Hc); [lia|done..].
    + exact Hor'.
Qed.

End LifeCycle.

(** C1, as the code has it.  Along a run from the initial state whose
    enrolments stay within the range of [int], an order that is revoked
    stays revoked through every later enrolment, revocation and wake-up,
    except the wake-up of the goroutine started for the order itself; an
    order whose goroutine has woken up already is revoked for good. *)
Theorem revoked_terminal_once_woken t1 σ t2 σ' k :
  run initial t1 σ → run σ t2 σ' →
  12345 + enrolments (t1 ++ t2) ≤ 2 ^ 63 →
  statusOf σ k = Some "revoked"%string →
  (Issue k ∉ t2) ∨ (k ∉ sleeping σ) →
  statusOf σ' k = Some "revoked"%string.
Proof.
  intros Hrun1 Hrun2 Hb Hk Hor.
  pose proof (counted_run 0 _ _ _ counted_initial Hrun1) as Hc.
  rewrite enrolments_app in Hb.
  apply (revoked_run _ σ t2 σ' k Hc Hrun2); [lia|done..].
Qed.

Lemma revoked_terminal_once_woken_witness :
  let e1 := Enroll "CSR-A" 1000 (EnrollResponse.mk 12345 "Order created successfully") in
  let e2 := Issue 12345 in
  let e3 := Revoke "12345" revokeSuccess in
  let e4 := Enroll "CSR-B" 1001 (EnrollResponse.mk 12346 "Order created successfully") in
  let e5 := Issue 12346 in
  let σ1 := (handleEnroll "CSR-A" 1000 initial).2 in
  let σ2 := issue 12345 (wake [] [] σ1) in
  let σ3 := (handleRevoke (map_to_list (orders σ2)) "12345" σ2).2 in
  let σ4 := (handleEnroll "CSR-B" 1001 σ3).2 in
  let σ5 := issue 12346 (wake [] [] σ4) in
  run initial [e1; e2; e3] σ3 ∧ run σ3 [e4; e5] σ5 ∧
  12345 + enrolments ([e1; e2; e3] ++ [e4; e5]) ≤ 2 ^ 63 ∧
  statusOf σ3 12345 = Some "revoked"%string ∧
  (12345 ∉ sleeping σ3) ∧
  statusOf σ5 12345 = Some "revoked"%string.
Proof.
  intros e1 e2 e3 e4 e5 σ1 σ2 σ3 σ4 σ5.
  assert (run initial [e1; e2; e3] σ3) as Hrun1.
  { eapply run_cons; [exact (step_enroll initial "CSR-A" 1000)|].
    eapply run_cons; [exact (step_issue σ1 12345 [] [] eq_refl)|].
    eapply run_cons;
      [exact (step_revoke σ2 (map_to_list (orders σ2)) "12345" (reflexivity _))|].
    apply run_nil. }
  assert (run σ3 [e4; e5] σ5) as Hrun2.
  { eapply run_cons; [exact (step_enroll σ3 "CSR-B" 1001)|].
    eapply run_cons; [exact (step_issue σ4 12346 [] [] eq_refl)|].
    apply run_nil. }
  assert (12345 + enrolments ([e1; e2; e3] ++ [e4; e5]) ≤ 2 ^ 63) as Hb
    by (vm_compute; discriminate).
  assert (statusOf σ3 12345 = Some "revoked"%string) as Hk by reflexivity.
  assert (12345 ∉ sleeping σ3) as Hs by (intros H; inversion H).
  split; [exact Hrun1|]. split; [exact Hrun2|]. split; [exact Hb|].
  split; [exact Hk|]. split; [exact Hs|].
  exact (revoked_terminal_once_woken [e1; e2; e3] σ3 [e4; e5] σ5 12345
           Hrun1 Hrun2 Hb Hk (or_intror Hs)).
Defined.

(** C1, as the claim has it, fails: an order that is revoked while its
    goroutine is still asleep is set to "issued" when the goroutine wakes
    up. *)
Lemma revoked_is_terminal_counterexample : ¬ revoked_is_terminal.
Proof.
  intros Hterm.
  pose (σ1 := (handleEnroll "CSR-A" 1000 initial).2).
  pose (σ2 := (handleRevoke (map_to_list (orders σ1)) "12345" σ1).2).
  pose (σ3 := issue 12345 (wake [] [] σ2)).
  assert (run initial
            [Enroll "CSR-A" 1000
               (EnrollResponse.mk 12345 "Order created successfully");
             Revoke "12345" revokeSuccess] σ2) as Hrun.
  { eapply run_cons; [exact (step_enroll initial "CSR-A" 1000)|].
    eapply run_cons;
      [exact (step_revoke σ1 (map_to_list (orders σ1)) "12345" (reflexivity _))|].
    apply run_nil. }
  assert (step σ2 (Issue 12345) σ3) as Hstep
    by exact (step_issue σ2 12345 [] [] eq_refl).
  assert (statusOf σ2 12345 = Some "revoked"%string) as Hk by reflexivity.
  pose proof (Hterm _ σ2 (Issue 12345) σ3 12345 Hrun Hstep Hk) as Hbad.
  assert (statusOf σ3 12345 = Some "issued"%string) as Hissued by reflexivity.
  rewrite Hissued in Hbad. discriminate Hbad.
Qed.

(** ** Scanning what [Sprintf] has rendered *)

Section Scanning.

Import Go.

Lemma digit_range c v :
  digit c = Some v →
  (48 ≤ nat_of_ascii c)%nat ∧ (nat_of_ascii c ≤ 57)%nat.
Proof.
  unfold digit.
  destruct (Nat.leb_spec 48 (nat_of_ascii c));
    destruct (Nat.leb_spec (nat_of_ascii c) 57); simpl; try discriminate.
  intros _. lia.
Qed.

Lemma digit_bounds c v : digit c = Some v → 0 ≤ v ≤ 9.
Proof.
  intros H. pose proof (digit_range c v H) as [Hlo Hhi]. unfold digit in H.
  destruct (_ && _); [|discriminate]. injection H as <-. lia.
Qed.

Lemma append_empty_r s : s +:+ EmptyString = s.
Proof.
  induction s as [|c s IH]; [done|].
  change (String c s +:+ EmptyString) with (String c (s +:+ EmptyString)).
  by rewrite IH.
Qed.

Lemma scanNumber_digit budget c s v :
  0 < budget → digit c = Some v →
  scanNumber budget (String c s) = c :: scanNumber (budget - 1) s.
Proof.
  intros Hb H. simpl. destruct (Z.leb_spec budget 0); [lia|]. by rewrite H.
Qed.

Lemma parseDigits_cons acc c v tok :
  digit c = Some v → parseDigits acc (c :: tok) = parseDigits (10 * acc + v) tok.
Proof. intros H. simpl. by rewrite H. Qed.

(** The characters of a rendering are digits. *)
Lemma uint_digits d :
  Forall (λ c, is_Some (digit c))
         (list_ascii_of_string (NilEmpty.string_of_uint d)).
Proof.
  induction d; simpl; constructor; try done; by eexists.
Qed.

(** Of a run of digits that ends in the string, the scanner takes as many
    as it may still read. *)
Lemma scanNumber_take budget d rest :
  (∀ c r, rest = String c r → digit c = None) →
  scanNumber budget (NilEmpty.string_of_uint d +:+ rest) =
  take (Z.to_nat budget) (list_ascii_of_string (NilEmpty.string_of_uint d)).
Proof.
  intros Hstop. revert budget.
  assert (∀ budget c x l,
            digit c = Some x →
            (∀ b, scanNumber b (l +:+ rest) =
                  take (Z.to_nat b) (list_ascii_of_string l)) →
            scanNumber budget (String c l +:+ rest) =
            take (Z.to_nat budget) (list_ascii_of_string (String c l)))
    as Hcons.
  { intros budget c x l Hc IH.
    change (String c l +:+ rest) with (String c (l +:+ rest)).
    destruct (Z.leb_spec budget 0) as [Hle|Hgt].
    - simpl. destruct (Z.leb_spec budget 0); [|lia].
      by replace (Z.to_nat budget) with 0%nat by lia.
    - rewrite (scanNumber_digit budget c _ x Hgt Hc), IH.
      replace (Z.to_nat budget) with (S (Z.to_nat (budget - 1))) by lia.
      done. }
  induction d as [|d IH|d IH|d IH|d IH|d IH|d IH|d IH|d IH|d IH|d IH];
    intros budget; simpl NilEmpty.string_of_uint;
    [|by eapply Hcons..].
  change (EmptyString +:+ rest) with rest. simpl list_ascii_of_string.
  rewrite take_nil. destruct rest as [|c r]; [done|].
  simpl. rewrite (Hstop c r eq_refl). by destruct (budget <=? 0).
Qed.

Lemma parseDigits_pos d acc :
  parseDigits (Z.pos acc) (list_ascii_of_string (NilEmpty.string_of_uint d)) =
  Some (Z.pos (Pos.of_uint_acc d acc)).
Proof.
  revert acc.
  induction d as [|d IH|d IH|d IH|d IH|d IH|d IH|d IH|d IH|d IH|d IH];
    intros acc; [done|..];
    simpl Pos.of_uint_acc; rewrite <- IH;
    simpl NilEmpty.string_of_uint; simpl list_ascii_of_string;
    erewrite parseDigits_cons by reflexivity; f_equal;
    match goal with
    | |- 10 * _ + ?v = _ => let v' := eval vm_compute in v in change v with v'
    end; lia.
Qed.

Lemma parseDigits_uint d :
  parseDigits 0 (list_ascii_of_string (NilEmpty.string_of_uint d)) =
  Some (Z.of_N (Pos.of_uint d)).
Proof.
  induction d as [|d IH|d IH|d IH|d IH|d IH|d IH|d IH|d IH|d IH|d IH];
    [done|..];
    simpl NilEmpty.string_of_uint; simpl list_ascii_of_string;
    erewrite parseDigits_cons by reflexivity;
    match goal with
    | |- parseDigits ?a _ = _ => let a' := eval vm_compute in a in change a with a'
    end;
    [exact IH|apply parseDigits_pos..].
Qed.

Lemma parseDigits_total tok acc :
  Forall (λ c, is_Some (digit c)) tok → is_Some (parseDigits acc tok).
Proof.
  intros H. revert acc. induction H as [|c tok [v Hv] _ IH]; intros acc.
  - by eexists.
  - rewrite (parseDigits_cons acc c v tok Hv). apply IH.
Qed.

(** A token of [n] digits after the accumulator [acc] is worth at least
    [acc * 10 ^ n]. *)
Lemma parseDigits_lower tok acc v :
  0 ≤ acc → parseDigits acc tok = Some v →
  acc * 10 ^ Z.of_nat (length tok) ≤ v.
Proof.
  revert acc. induction tok as [|c tok IH]; intros acc Hacc.
  - simpl. intros [= <-]. lia.
  - simpl parseDigits. destruct (digit c) as [x|] eqn:Hx; [|discriminate].
    pose proof (digit_bounds c x Hx) as Hb. intros Hv.
    apply IH in Hv; [|lia].
    rewrite length_cons, Nat2Z.inj_succ, Z.pow_succ_r by lia.
    pose proof (Z.pow_nonneg 10 (Z.of_nat (length tok)) ltac:(lia)). nia.
Qed.

(** The rendering of a positive number starts with a digit that is not
    zero. *)
Lemma to_uint_head p :
  ∃ c r v, NilEmpty.string_of_uint (Pos.to_uint p) = String c r ∧
           digit c = Some v ∧ 1 ≤ v.
Proof.
  pose proof (DecimalPos.Unsigned.to_of (Pos.to_uint p)) as Hnorm.
  rewrite DecimalPos.Unsigned.of_to in Hnorm. simpl N.to_uint in Hnorm.
  pose proof (DecimalPos.Unsigned.to_uint_nonzero p) as Hnz.
  assert (Decimal.nzhead (Pos.to_uint p) ≠ Decimal.Nil) as Hhead.
  { intros H. apply DecimalFacts.unorm_0 in H. congruence. }
  rewrite (DecimalFacts.unorm_nzhead _ Hhead) in Hnorm.
  pose proof (DecimalFacts.nzhead_nonzero (Pos.to_uint p)) as Hno.
  rewrite <- Hnorm in Hno, Hhead.
  destruct (Pos.to_uint p) as [|d|d|d|d|d|d|d|d|d|d]; [done|..]; simpl;
    try (eexists _, _, _; split; [reflexivity|]; split; [reflexivity|];
         by vm_compute).
  by destruct (Hno d).
Qed.

(** What the scanner makes of a rendering that ends in the string: the
    value of the number, or, when it may not read all the digits, a value
    beyond [int64], like the number itself. *)
Lemma scan_value p rest budget :
  20 ≤ budget → (∀ c r, rest = String c r → digit c = None) →
  ∃ c tok m,
    scanNumber budget (NilEmpty.string_of_uint (Pos.to_uint p) +:+ rest) =
      c :: tok ∧
    parseDigits 0 (c :: tok) = Some m ∧
    (m = Z.pos p ∨ (2 ^ 63 < m ∧ 2 ^ 63 < Z.pos p)).
Proof.
  intros Hb Hstop. rewrite (scanNumber_take budget _ rest Hstop).
  pose proof (parseDigits_uint (Pos.to_uint p)) as Hfull.
  rewrite DecimalPos.Unsigned.of_to in Hfull. simpl Z.of_N in Hfull.
  pose proof (uint_digits (Pos.to_uint p)) as Hdig.
  destruct (to_uint_head p) as (c & r & v & Hs & Hd & Hv).
  rewrite Hs in Hfull, Hdig |- *. simpl list_ascii_of_string in *.
  set (cs := list_ascii_of_string r) in *.
  replace (Z.to_nat budget) with (S (Z.to_nat (budget - 1))) by lia.
  set (k := Z.to_nat (budget - 1)).
  assert (19 ≤ Z.of_nat k) as Hk by (unfold k; lia).
  rewrite firstn_cons. exists c, (take k cs).
  apply Forall_cons in Hdig as [_ Hdig].
  rewrite (parseDigits_cons 0 c v cs Hd) in Hfull.
  rewrite (parseDigits_cons 0 c v (take k cs) Hd).
  destruct (decide (length cs ≤ k)%nat) as [Hle|Hgt].
  - rewrite take_ge by done. exists (Z.pos p). by repeat split; [|left].
  - assert (Forall (λ c, is_Some (digit c)) (take k cs)) as Hdig'
      by (by apply Forall_take).
    destruct (parseDigits_total (take k cs) (10 * 0 + v) Hdig') as [m Hm].
    exists m. split; [done|]. split; [done|]. right.
    assert (0 ≤ 10 * 0 + v) as Hv0 by lia.
    pose proof (parseDigits_lower _ _ _ Hv0 Hm) as Hlow.
    pose proof (parseDigits_lower _ _ _ Hv0 Hfull) as Hlow'.
    rewrite length_take in Hlow.
    replace (k `min` length cs)%nat with k in Hlow by lia.
    pose proof (Z.pow_le_mono_r 10 19 (Z.of_nat k) ltac:(lia) Hk) as Hp.
    pose proof (Z.pow_le_mono_r 10 19 (Z.of_nat (length cs)) ltac:(lia)
                  ltac:(lia)) as Hp'.
    assert (2 ^ 63 < 10 ^ 19) as H19 by (by vm_compute).
    split; nia.
Qed.

(** A printable ASCII character is no space: it is put back at once. *)
Lemma SkipSpace_printable budget c r :
  0 < budget → 33 ≤ byte c < 128 →
  SkipSpace budget (String c r) = Some (budget, String c r).
Proof.
  intros Hpos Hb. unfold SkipSpace. simpl String.length.
  unfold skipSpace, DecodeRune. fold (byte c).
  destruct (Z.leb_spec budget 0) as [?|_]; [lia|].
  destruct (Z.ltb_spec (byte c) 128) as [_|?]; [|lia].
  destruct (Z.eqb_spec (byte c) 10) as [?|_]; [lia|].
  assert (isSpace (byte c) = false) as ->; [|done].
  unfold isSpace, space, inRanges.
  destruct (Z.leb_spec 65536 (byte c)); [done|].
  destruct (Z.ltb_spec (byte c) 9); [done|].
  destruct (Z.leb_spec (byte c) 13); [lia|].
  destruct (Z.ltb_spec (byte c) 32); [done|].
  destruct (Z.leb_spec (byte c) 32); [lia|].
  destruct (Z.ltb_spec (byte c) 133); [done|lia].
Qed.

Lemma string_of_uint_nonnil d :
  d ≠ Decimal.Nil →
  NilZero.string_of_uint d = NilEmpty.string_of_uint d.
Proof. by destruct d. Qed.

(** Scanning a rendering, followed or not by something that is no part of
    a number, gives the integer back when it is an [int64], and an error
    otherwise. *)
Lemma Sscanf_d_Sprintf_d_stop z rest :
  (∀ c r, rest = String c r → digit c = None) →
  Sscanf_d (Sprintf_d z +:+ rest) =
  if (minInt <=? z) && (z <=? maxInt) then Some z else None.
Proof.
  intros Hstop. unfold Sscanf_d.
  assert (21 ≤ hugeWid) as Hhuge by (by vm_compute).
  revert Hhuge. generalize hugeWid. intros budget Hhuge.
  destruct z as [|p|p].
  - change (Sprintf_d 0 +:+ rest) with (String "0" rest).
    rewrite SkipSpace_printable
      by first [lia|vm_compute; split; [discriminate|reflexivity]].
    destruct (Z.leb_spec budget 0) as [?|_]; [lia|].
    change (nat_of_ascii "0" =? 45)%nat with false.
    change (nat_of_ascii "0" =? 43)%nat with false. cbv iota.
    rewrite (scanNumber_digit budget "0" rest 0 ltac:(lia) eq_refl).
    assert (scanNumber (budget - 1) rest = []) as ->.
    { destruct rest as [|c r]; [done|]. simpl.
      rewrite (Hstop c r eq_refl). by destruct (budget - 1 <=? 0). }
    reflexivity.
  - unfold Sprintf_d. simpl Z.to_int. simpl NilZero.string_of_int.
    rewrite string_of_uint_nonnil by apply DecimalPos.Unsigned.to_uint_nonnil.
    destruct (scan_value p rest budget ltac:(lia) Hstop)
      as (c' & tok & m & Hscan & Hparse & Hm).
    destruct (to_uint_head p) as (c & r & v & Hs & Hd & _).
    pose proof (digit_range c v Hd) as [Hlo Hhi].
    rewrite Hs in Hscan |- *.
    change (String c r +:+ rest) with (String c (r +:+ rest)) in Hscan |- *.
    rewrite SkipSpace_printable by (unfold byte; lia).
    destruct (Z.leb_spec budget 0) as [?|_]; [lia|].
    destruct (Nat.eqb_spec (nat_of_ascii c) 45) as [?|_]; [lia|].
    destruct (Nat.eqb_spec (nat_of_ascii c) 43) as [?|_]; [lia|].
    rewrite Hscan, Hparse. cbv zeta.
    destruct Hm as [->|[Hbig Hbig']]; [done|].
    destruct (Z.leb_spec m maxInt) as [?|_]; [unfold maxInt in *; lia|].
    destruct (Z.leb_spec (Z.pos p) maxInt) as [?|_]; [unfold maxInt in *; lia|].
    by rewrite !andb_false_r.
  - unfold Sprintf_d. simpl Z.to_int. simpl NilZero.string_of_int.
    rewrite string_of_uint_nonnil by apply DecimalPos.Unsigned.to_uint_nonnil.
    change (String "-" ?x +:+ rest) with (String "-" (x +:+ rest)).
    destruct (scan_value p rest (budget - 1) ltac:(lia) Hstop)
      as (c' & tok & m & Hscan & Hparse & Hm).
    rewrite SkipSpace_printable
      by first [lia|vm_compute; split; [discriminate|reflexivity]].
    destruct (Z.leb_spec budget 0) as [?|_]; [lia|].
    change (nat_of_ascii "-" =? 45)%nat with true. cbv iota.
    rewrite Hscan, Hparse. cbv zeta.
    destruct Hm as [->|[Hbig Hbig']]; [done|].
    destruct (Z.leb_spec minInt (- m)) as [?|_]; [unfold minInt in *; lia|].
    destruct (Z.leb_spec minInt (Z.neg p)) as [?|_]; [unfold minInt in *; lia|].
    done.
Qed.

Lemma Sscanf_d_Sprintf_d z :
  Sscanf_d (Sprintf_d z) =
  if (minInt <=? z) && (z <=? maxInt) then Some z else None.
Proof.
  rewrite <- (append_empty_r (Sprintf_d z)) at 1.
  by apply Sscanf_d_Sprintf_d_stop.
Qed.

(** A string that scans to [X] without being the rendering of [X] is the
    rendering of no integer at all. *)
Lemma noncanonical_renders_nothing s X :
  Sscanf_d s = Some X → s ≠ Sprintf_d X → ∀ z, Sprintf_d z ≠ s.
Proof.
  intros Hscan Hne z Hz. rewrite <- Hz, Sscanf_d_Sprintf_d in Hscan.
  destruct ((minInt <=? z) && (z <=? maxInt)); [|discriminate].
  injection Hscan as ->. by apply Hne.
Qed.

End Scanning.

(** C10. The loop of [handleRevoke] compares strings.  A string that
    [Sscanf] reads as the integer [X] but that is not the decimal
    rendering of [X] (such as "012345", "+12345", " 12345" or "12345_" for
    12345) is the rendering of no identifier: the revocation answers
    "failure" and changes nothing, whether or not an order [X] is
    stored. *)
Theorem revoke_noncanonical σ s X resp σ' :
  Go.Sscanf_d s = Some X → s ≠ Go.Sprintf_d X →
  step σ (Revoke s resp) σ' →
  resp = revokeFailure ∧ σ' = σ.
Proof.
  intros Hscan Hne (l & Hl & -> & ->)%step_revoke_inv.
  rewrite (handleRevoke_unmatched σ l s Hl); [done|].
  intros k o _. by apply (noncanonical_renders_nothing s X).
Qed.

Lemma revoke_noncanonical_witness :
  let σ1 := (handleEnroll "CSR-A" 1000 initial).2 in
  let attempt s := (handleRevoke (map_to_list (orders σ1)) s σ1).2 in
  let nbsp := String (ascii_of_nat 194) (String (ascii_of_nat 160) "12345") in
  is_Some (orders σ1 !! 12345) ∧
  (Go.Sscanf_d "012345" = Some 12345 ∧ "012345"%string ≠ Go.Sprintf_d 12345 ∧
   step σ1 (Revoke "012345" revokeFailure) (attempt "012345"%string) ∧
   attempt "012345"%string = σ1) ∧
  (Go.Sscanf_d "+12345" = Some 12345 ∧ "+12345"%string ≠ Go.Sprintf_d 12345 ∧
   step σ1 (Revoke "+12345" revokeFailure) (attempt "+12345"%string) ∧
   attempt "+12345"%string = σ1) ∧
  (Go.Sscanf_d " 12345" = Some 12345 ∧ " 12345"%string ≠ Go.Sprintf_d 12345 ∧
   step σ1 (Revoke " 12345" revokeFailure) (attempt " 12345"%string) ∧
   attempt " 12345"%string = σ1) ∧
  (Go.Sscanf_d "12345_" = Some 12345 ∧ "12345_"%string ≠ Go.Sprintf_d 12345 ∧
   step σ1 (Revoke "12345_" revokeFailure) (attempt "12345_"%string) ∧
   attempt "12345_"%string = σ1) ∧
  (Go.Sscanf_d nbsp = Some 12345 ∧ nbsp ≠ Go.Sprintf_d 12345 ∧
   step σ1 (Revoke nbsp revokeFailure) (attempt nbsp) ∧
   attempt nbsp = σ1) ∧
  (handleRevoke (map_to_list (orders σ1)) "12345" σ1).1 = revokeSuccess.
Proof.
  intros σ1 attempt nbsp.
  assert (∀ s, Go.Sscanf_d s = Some 12345 → s ≠ Go.Sprintf_d 12345 →
               step σ1 (Revoke s revokeFailure) (attempt s) →
               Go.Sscanf_d s = Some 12345 ∧ s ≠ Go.Sprintf_d 12345 ∧
               step σ1 (Revoke s revokeFailure) (attempt s) ∧ attempt s = σ1) as Huse.
  { intros s Hscan Hne Hstep. split; [exact Hscan|]. split; [exact Hne|].
    split; [exact Hstep|].
    exact (proj2 (revoke_noncanonical σ1 s 12345 revokeFailure (attempt s)
                    Hscan Hne Hstep)). }
  split; [by eexists|]. split; [|split; [|split; [|split; [|split]]]].
  - apply Huse; [reflexivity|discriminate|].
    exact (step_revoke σ1 (map_to_list (orders σ1)) "012345" (reflexivity _)).
  - apply Huse; [reflexivity|discriminate|].
    exact (step_revoke σ1 (map_to_list (orders σ1)) "+12345" (reflexivity _)).
  - apply Huse; [reflexivity|discriminate|].
    exact (step_revoke σ1 (map_to_list (orders σ1)) " 12345" (reflexivity _)).
  - apply Huse; [reflexivity|discriminate|].
    exact (step_revoke σ1 (map_to_list (orders σ1)) "12345_" (reflexivity _)).
  - apply Huse; [reflexivity|discriminate|].
    exact (step_revoke σ1 (map_to_list (orders σ1)) nbsp (reflexivity _)).
  - reflexivity.
Defined.

(** ** The scenario of the specification *)

Example scenario :
  let r1 := handleEnroll "CSR-A" 1000 initial in
  let σ2 := issue 12345 (wake [] [] r1.2) in
  let r3 := handleRevoke (map_to_list (orders σ2)) "12345" σ2 in
  EnrollResponse.SslId r1.1 = 12345 ∧
  handleStatus 12345 r1.2 = StatusJSON 12345 "pending" ∧
  handleStatus 12345 σ2 = StatusJSON 12345 "issued" ∧
  handleCollect 12345 σ2 = CollectFile "12345.crt" generateFakeCert ∧
  r3.1 = revokeSuccess ∧
  handleStatus 12345 r3.2 = StatusJSON 12345 "revoked".
Proof. repeat split. Qed.

(** ** Session identifiers *)

Section SessionID.

Lemma chars_length s : length (chars s) = String.length s.
Proof. induction s as [|c s IH]; simpl; congruence. Qed.

Lemma hex_byte_chars v :
  Hex.hexchar (N.shiftr (Byte.to_N v) 4) ∈ chars Hex.hextable ∧
  Hex.hexchar (N.land (Byte.to_N v) 15) ∈ chars Hex.hextable.
Proof. destruct v; split; vm_compute; repeat constructor. Qed.

Lemma unhex_byte v s :
  unhex (String (Hex.hexchar (N.shiftr (Byte.to_N v) 4))
           (String (Hex.hexchar (N.land (Byte.to_N v) 15)) s)) =
  match unhex s with Some rest => Some (v :: rest) | None => None end.
Proof. destruct v; reflexivity. Qed.

Lemma unhex_EncodeToString b : unhex (Hex.EncodeToString b) = Some b.
Proof.
  induction b as [|v b IH]; [done|].
  change (Hex.EncodeToString (v :: b))
    with (String (Hex.hexchar (N.shiftr (Byte.to_N v) 4))
            (String (Hex.hexchar (N.land (Byte.to_N v) 15))
               (Hex.EncodeToString b))).
  by rewrite unhex_byte, IH.
Qed.

End SessionID.

(** X1. A session identifier made from 16 random bytes is a string of 32
    characters, each of them one of "0123456789abcdef". *)
Theorem session_id_format b :
  length b = 16%nat →
  String.length (generateRandomSessionID b) = 32%nat ∧
  ∀ c, c ∈ chars (generateRandomSessionID b) → c ∈ chars Hex.hextable.
Proof.
  intros Hlen. unfold generateRandomSessionID.
  assert (String.length (Hex.EncodeToString b) = (2 * length b)%nat) as Hl.
  { clear Hlen. induction b as [|v b IH]; simpl; [done|]. rewrite IH. lia. }
  split; [rewrite Hl, Hlen; done|].
  clear Hlen Hl. induction b as [|v b IH]; intros c Hc.
  - by apply elem_of_nil in Hc.
  - destruct (hex_byte_chars v) as [Hhi Hlo]. simpl in Hc.
    apply elem_of_cons in Hc as [->|Hc]; [exact Hhi|].
    apply elem_of_cons in Hc as [->|Hc]; [exact Hlo|by apply IH].
Qed.

Lemma session_id_format_witness :
  let b := [Byte.x00; Byte.x01; Byte.x7f; Byte.x80; Byte.xab; Byte.xcd;
            Byte.xef; Byte.xff; Byte.x10; Byte.x20; Byte.x30; Byte.x40;
            Byte.x50; Byte.x60; Byte.x70; Byte.x9a] in
  length b = 16%nat ∧
  generateRandomSessionID b = "00017f80abcdefff102030405060709a"%string ∧
  String.length (generateRandomSessionID b) = 32%nat.
Proof.
  intros b. assert (length b = 16%nat) as Hlen by reflexivity.
  split; [exact Hlen|]. split; [reflexivity|].
  exact (proj1 (session_id_format b Hlen)).
Defined.

(** X2. Different random bytes give different session identifiers: the
    encoding loses nothing, so two identifiers collide only when the
    random source repeats itself. *)
Theorem session_id_injective b1 b2 :
  generateRandomSessionID b1 = generateRandomSessionID b2 → b1 = b2.
Proof.
  unfold generateRandomSessionID. intros H.
  pose proof (unhex_EncodeToString b1) as H1.
  rewrite H, unhex_EncodeToString in H1. congruence.
Qed.

Lemma session_id_injective_witness :
  generateRandomSessionID [Byte.x0a; Byte.xb0] =
  generateRandomSessionID [Byte.x0a; Byte.xb0] ∧
  generateRandomSessionID [Byte.x0a; Byte.xb0] ≠
  generateRandomSessionID [Byte.xa0; Byte.x0b].
Proof.
  split; [reflexivity|]. intros H.
  pose proof (session_id_injective _ _ H) as Hb. discriminate Hb.
Defined.

(** ** Paths *)

Section Paths.

Import Strings.

Lemma Split_cons s sep : ∃ piece pieces, Split s sep = piece :: pieces.
Proof.
  induction s as [|c s (piece & pieces & IH)]; simpl; [by eexists _, _|].
  destruct (Ascii.eqb c sep); [by eexists _, _|].
  rewrite IH. by eexists _, _.
Qed.

Lemma length_Split s sep : length (Split s sep) = S (occurrences sep s).
Proof.
  induction s as [|c s IH]; simpl; [done|].
  destruct (Ascii.eqb c sep); simpl; [by rewrite IH|].
  destruct (Split_cons s sep) as (piece & pieces & Hs).
  rewrite Hs in IH. rewrite Hs. exact IH.
Qed.

(** Splitting at a separator that is there: the pieces before it and the
    pieces after it. *)
Lemma Split_app s1 s2 sep :
  Split (s1 +:+ String sep s2) sep = Split s1 sep ++ Split s2 sep.
Proof.
  induction s1 as [|c s1 IH]; simpl.
  - by rewrite Ascii.eqb_refl.
  - destruct (Ascii.eqb c sep); [by rewrite IH|].
    rewrite IH. destruct (Split_cons s1 sep) as (piece & pieces & ->). done.
Qed.

(** A prefix without separator stays in front of the first piece. *)
Lemma Split_prefix s1 s2 sep piece pieces :
  occurrences sep s1 = 0%nat → Split s2 sep = piece :: pieces →
  Split (s1 +:+ s2) sep = (s1 +:+ piece) :: pieces.
Proof.
  intros H Hs. induction s1 as [|c s1 IH].
  - exact Hs.
  - change (String c s1 +:+ s2) with (String c (s1 +:+ s2)).
    simpl in H |- *. destruct (Ascii.eqb c sep); [discriminate|].
    by rewrite (IH H).
Qed.

Lemma Split_none s sep : occurrences sep s = 0%nat → Split s sep = [s].
Proof.
  intros H.
  pose proof (Split_prefix s EmptyString sep EmptyString [] H eq_refl) as Hs.
  by rewrite append_empty_r in Hs.
Qed.

Lemma Split_statusPath s :
  Split (statusPath s) "/" =
  [EmptyString; "api"; "ssl"; "v1"; "status"]%string ++ Split s "/".
Proof. exact (Split_app "/api/ssl/v1/status" s "/"). Qed.

Lemma Split_collectPath s :
  Split (collectPath s) "/" =
  [EmptyString; "api"; "ssl"; "v1"; "collect"]%string ++ Split s "/".
Proof. exact (Split_app "/api/ssl/v1/collect" s "/"). Qed.

(** Under the two routes the identifier is read from the piece of the
    rest of the path that ends at its first slash. *)
Lemma handleStatus_statusPath s piece pieces σ :
  Split s "/" = piece :: pieces →
  HTTP.handleStatus MethodGet (statusPath s) σ =
  match Go.Sscanf_d piece with
  | None => StatusError "Invalid Order ID format" StatusBadRequest
  | Some orderID => handleStatus orderID σ
  end.
Proof.
  intros Hs. unfold HTTP.handleStatus.
  change (String.eqb MethodGet MethodGet) with true. cbv iota. simpl negb.
  cbv iota. by rewrite Split_statusPath, Hs.
Qed.

Lemma handleCollect_collectPath s piece pieces σ :
  Split s "/" = piece :: pieces →
  HTTP.handleCollect MethodGet (collectPath s) σ =
  match Go.Sscanf_d piece with
  | None => CollectError "Invalid Order ID format" StatusBadRequest
  | Some orderID => handleCollect orderID σ
  end.
Proof.
  intros Hs. unfold HTTP.handleCollect.
  change (String.eqb MethodGet MethodGet) with true. cbv iota. simpl negb.
  cbv iota. by rewrite Split_collectPath, Hs.
Qed.

Lemma occurrences_uint d : occurrences "/" (NilEmpty.string_of_uint d) = 0%nat.
Proof. induction d; simpl; auto. Qed.

Lemma occurrences_Sprintf_d z : occurrences "/" (Go.Sprintf_d z) = 0%nat.
Proof.
  unfold Go.Sprintf_d.
  assert (∀ d, occurrences "/" (NilZero.string_of_uint d) = 0%nat) as Hu.
  { intros d. destruct d; try apply (occurrences_uint (_ d)); done. }
  destruct z; simpl; auto.
Qed.

End Paths.

Section ScanningPrefix.

Import Go.

(** The first piece of a split starts like the string that was split. *)
Lemma Split_first_char s sep piece pieces c r :
  Strings.Split s sep = piece :: pieces → piece = String c r →
  ∃ r', s = String c r'.
Proof.
  destruct s as [|c' s]; simpl.
  - intros [= <- _]. discriminate.
  - destruct (Ascii.eqb c' sep).
    + intros [= <- _]. discriminate.
    + destruct (Split_cons s sep) as (p & ps & ->).
      intros [= <- _] [= -> _]. by eexists.
Qed.

(** The piece of the path that holds the identifier, when the path goes on
    after the rendering of [id] with something that is no part of a
    number. *)
Lemma Sscanf_d_first_piece id rest :
  minInt ≤ id ≤ maxInt →
  (∀ c r, rest = String c r → digit c = None) →
  ∃ piece pieces,
    Strings.Split (Sprintf_d id +:+ rest) "/" = piece :: pieces ∧
    Sscanf_d piece = Some id.
Proof.
  intros Hid Hstop.
  destruct (Split_cons rest "/") as (p & ps & Hs).
  exists (Sprintf_d id +:+ p), ps. split.
  - apply Split_prefix; [apply occurrences_Sprintf_d|exact Hs].
  - rewrite Sscanf_d_Sprintf_d_stop.
    + destruct (Z.leb_spec minInt id); [|lia].
      destruct (Z.leb_spec id maxInt); [done|lia].
    + intros c r Hp.
      destruct (Split_first_char rest "/" p ps c r Hs Hp) as [r' Hr].
      by apply (Hstop c r').
Qed.

End ScanningPrefix.

(** X3. The identifier of an order travels through the URL unharmed: a GET
    under the status route, and one under the collect route, with the
    decimal rendering of any [int] as last piece of the path is answered
    as the store answers for that integer. *)
Theorem path_round_trip id σ :
  Go.minInt ≤ id ≤ Go.maxInt →
  HTTP.handleStatus MethodGet (statusPath (Go.Sprintf_d id)) σ =
    handleStatus id σ ∧
  HTTP.handleCollect MethodGet (collectPath (Go.Sprintf_d id)) σ =
    handleCollect id σ.
Proof.
  intros Hid.
  destruct (Sscanf_d_first_piece id EmptyString Hid) as (p & ps & Hs & Hp);
    [discriminate|].
  rewrite append_empty_r in Hs.
  rewrite (handleStatus_statusPath _ p ps σ Hs),
          (handleCollect_collectPath _ p ps σ Hs), Hp. done.
Qed.

Lemma path_round_trip_witness :
  let σ := issue 12345 (handleEnroll "CSR-A" 1000 initial).2 in
  Go.minInt ≤ 12345 ≤ Go.maxInt ∧
  HTTP.handleStatus "GET" "/api/ssl/v1/status/12345" σ =
    StatusJSON 12345 "issued" ∧
  HTTP.handleCollect "GET" "/api/ssl/v1/collect/12345" σ =
    CollectFile "12345.crt" generateFakeCert.
Proof.
  intros σ.
  assert (Go.minInt ≤ 12345 ≤ Go.maxInt) as Hid by (by vm_compute).
  split; [exact Hid|]. exact (path_round_trip 12345 σ Hid).
Defined.

(** X4. The identifier is read leniently.  When the rendering of an [int]
    is followed in the path by text that does not start with a digit (a
    suffix such as "abc", "_" or ".crt", or further segments after a
    slash), the two GET handlers answer as for the bare identifier: what
    follows the number is never looked at. *)
Theorem path_trailing_text id rest σ :
  Go.minInt ≤ id ≤ Go.maxInt →
  (∀ c r, rest = String c r → Go.digit c = None) →
  HTTP.handleStatus MethodGet (statusPath (Go.Sprintf_d id +:+ rest)) σ =
    handleStatus id σ ∧
  HTTP.handleCollect MethodGet (collectPath (Go.Sprintf_d id +:+ rest)) σ =
    handleCollect id σ.
Proof.
  intros Hid Hstop.
  destruct (Sscanf_d_first_piece id rest Hid Hstop) as (p & ps & Hs & Hp).
  rewrite (handleStatus_statusPath _ p ps σ Hs),
          (handleCollect_collectPath _ p ps σ Hs), Hp. done.
Qed.

Lemma path_trailing_text_witness :
  let σ := (handleEnroll "CSR-A" 1000 initial).2 in
  Go.minInt ≤ 12345 ≤ Go.maxInt ∧
  HTTP.handleStatus "GET" "/api/ssl/v1/status/12345abc/more" σ =
    StatusJSON 12345 "pending" ∧
  HTTP.handleCollect "GET" "/api/ssl/v1/collect/12345abc/more" σ =
    CollectError "Certificate not ready (status: pending)" 400 ∧
  HTTP.handleStatus "GET" "/api/ssl/v1/status/12345_" σ =
    StatusJSON 12345 "pending".
Proof.
  intros σ.
  assert (Go.minInt ≤ 12345 ≤ Go.maxInt) as Hid by (by vm_compute).
  assert (∀ c r, "abc/more"%string = String c r → Go.digit c = None) as Hstop
    by (by intros c r [= <- _]).
  assert (∀ c r, "_"%string = String c r → Go.digit c = None) as Hstop'
    by (by intros c r [= <- _]).
  split; [exact Hid|].
  destruct (path_trailing_text 12345 "abc/more" σ Hid Hstop) as [Hs Hc].
  split; [exact Hs|]. split; [exact Hc|].
  exact (proj1 (path_trailing_text 12345 "_" σ Hid Hstop')).
Defined.

(** X5. A GET is refused with "Invalid path" exactly when its path has
    fewer than five slashes, by the status handler and by the collect
    handler alike. *)
Theorem invalid_path_iff Path σ :
  (HTTP.handleStatus MethodGet Path σ =
     StatusError "Invalid path" StatusBadRequest ↔
   (occurrences "/" Path < 5)%nat) ∧
  (HTTP.handleCollect MethodGet Path σ =
     CollectError "Invalid path" StatusBadRequest ↔
   (occurrences "/" Path < 5)%nat).
Proof.
  unfold HTTP.handleStatus, HTTP.handleCollect.
  change (String.eqb MethodGet MethodGet) with true. simpl negb. cbv iota.
  rewrite length_Split.
  destruct (Nat.ltb_spec (S (occurrences "/" Path)) 6) as [Hlt|Hge].
  - split; (split; [lia|done]).
  - split; (split; [|lia]).
    + destruct (Go.Sscanf_d _) as [orderID|]; [|discriminate].
      unfold handleStatus. destruct (orders σ !! orderID); discriminate.
    + destruct (Go.Sscanf_d _) as [orderID|]; [|discriminate].
      unfold handleCollect. destruct (orders σ !! orderID) as [o|];
        [|discriminate].
      destruct (negb _); discriminate.
Qed.

(** X6. The two read handlers agree: for every method, path and state, a
    request is answered with the certificate file by the collect handler
    exactly when the status handler answers the same request with the
    status "issued". *)
Theorem collect_file_iff_status_issued Method Path σ :
  (∃ name body, HTTP.handleCollect Method Path σ = CollectFile name body) ↔
  (∃ id, HTTP.handleStatus Method Path σ = StatusJSON id "issued").
Proof.
  unfold HTTP.handleStatus, HTTP.handleCollect.
  destruct (negb (String.eqb Method MethodGet)).
  { split; [intros (? & ? & [=])|intros (? & [=])]. }
  destruct (length (Strings.Split Path "/") <? 6)%nat.
  { split; [intros (? & ? & [=])|intros (? & [=])]. }
  destruct (Go.Sscanf_d _) as [orderID|].
  2: { split; [intros (? & ? & [=])|intros (? & [=])]. }
  unfold handleStatus, handleCollect.
  destruct (orders σ !! orderID) as [o|].
  2: { split; [intros (? & ? & [=])|intros (? & [=])]. }
  destruct (String.eqb_spec (Status o) "issued") as [Heq|Hne]; simpl.
  - split; [intros _|intros _; by eexists _, _].
    exists orderID. by rewrite Heq.
  - split; [intros (? & ? & [=])|]. intros (id & [= _ H]). done.
Qed.

(** ** More invariants of the store *)

Section StoreInvariants.

Lemma enrolled_lookup t σ i id :
  run initial t σ → 12345 + enrolments t ≤ 2 ^ 63 →
  enrolled t !! i = Some id → id = 12345 + Z.of_nat i.
Proof.
  intros Hrun Hb Hi.
  pose proof (lookup_lt_Some _ _ _ Hi) as Hlt. unfold enrolments in Hb.
  rewrite (enrolled_run 12345 _ _ _ i id Hrun eq_refl Hi).
  apply wrap_small. unfold Go.minInt, Go.maxInt. lia.
Qed.

Lemma enrolled_range t σ k :
  run initial t σ → 12345 + enrolments t ≤ 2 ^ 63 →
  k ∈ enrolled t ↔ 12345 ≤ k < 12345 + enrolments t.
Proof.
  intros Hrun Hb. split.
  - intros (i & Hi)%list_elem_of_lookup.
    pose proof (lookup_lt_Some _ _ _ Hi) as Hlt.
    rewrite (enrolled_lookup t σ i k Hrun Hb Hi). unfold enrolments. lia.
  - intros Hk. unfold enrolments in Hk.
    destruct (lookup_lt_is_Some_2 (enrolled t) (Z.to_nat (k - 12345)))
      as [id Hid]; [lia|].
    pose proof (enrolled_lookup t σ _ id Hrun Hb Hid) as ->.
    apply list_elem_of_lookup. exists (Z.to_nat (k - 12345)).
    rewrite Hid. f_equal. lia.
Qed.

Lemma enrolled_NoDup t σ :
  run initial t σ → 12345 + enrolments t ≤ 2 ^ 63 → NoDup (enrolled t).
Proof.
  intros Hrun Hb. apply NoDup_alt. intros i j a Ha Hb'.
  pose proof (enrolled_lookup t σ i a Hrun Hb Ha).
  pose proof (enrolled_lookup t σ j a Hrun Hb Hb'). lia.
Qed.

(** What a step keeps true of every stored order. *)
Lemma wellformed_step σ e σ' :
  (∀ k o, orders σ !! k = Some o →
     ID o = k ∧ knownStatus (Status o) ∧ Certificate o = generateFakeCert) →
  step σ e σ' →
  ∀ k o, orders σ' !! k = Some o →
    ID o = k ∧ knownStatus (Status o) ∧ Certificate o = generateFakeCert.
Proof.
  intros Hwf Hstep k o.
  destruct Hstep as [σ Csr now|σ id pre post _|σ l SslId _].
  - simpl. destruct (decide (nextID σ = k)) as [->|Hne].
    + rewrite lookup_insert_eq. intros [= <-]. simpl.
      split; [done|]. split; [by left|done].
    + rewrite lookup_insert_ne by done. apply Hwf.
  - unfold issue. simpl. destruct (orders σ !! id) as [o'|] eqn:Ho'; simpl.
    + destruct (decide (id = k)) as [->|Hne].
      * rewrite lookup_insert_eq. intros [= <-]. simpl.
        destruct (Hwf k o' Ho') as (? & _ & ?).
        split; [done|]. split; [right; by left|done].
      * rewrite lookup_insert_ne by done. apply Hwf.
    + apply Hwf.
  - unfold handleRevoke. destruct (firstMatch SslId l) as [k'|]; simpl.
    + destruct (decide (k' = k)) as [->|Hne].
      * rewrite lookup_alter_eq.
        destruct (orders σ !! k) as [o'|] eqn:Ho'; simpl; [|done].
        intros [= <-]. simpl. destruct (Hwf k o' Ho') as (? & _ & ?).
        split; [done|]. split; [right; by right|done].
      * rewrite lookup_alter_ne by done. apply Hwf.
    + apply Hwf.
Qed.

(** A step keeps a goroutine asleep for every pending order. *)
Lemma pending_step σ e σ' :
  (∀ k, statusOf σ k = Some "pending"%string → k ∈ sleeping σ) →
  step σ e σ' →
  ∀ k, statusOf σ' k = Some "pending"%string → k ∈ sleeping σ'.
Proof.
  intros Hinv Hstep k.
  destruct Hstep as [σ Csr now|σ id pre post Hs|σ l SslId _].
  - assert (sleeping (handleEnroll Csr now σ).2 = sleeping σ ++ [nextID σ])
      as -> by done.
    rewrite elem_of_app, list_elem_of_singleton.
    destruct (decide (nextID σ = k)) as [->|Hne]; [auto|].
    rewrite handleEnroll_statusOf_ne by done. auto.
  - assert (sleeping (issue id (wake pre post σ)) = pre ++ post) as ->.
    { unfold issue. simpl. by destruct (orders σ !! id). }
    destruct (decide (id = k)) as [->|Hne].
    + unfold issue, statusOf. simpl.
      destruct (orders σ !! k) as [o|] eqn:Ho; simpl.
      * rewrite lookup_insert_eq. simpl. discriminate.
      * rewrite Ho. discriminate.
    + rewrite issue_statusOf_ne by done. intros Hk.
      assert (k ∈ sleeping σ) as Hin by (by apply Hinv).
      rewrite Hs, elem_of_app, elem_of_cons in Hin.
      rewrite elem_of_app. destruct Hin as [?|[?|?]]; [auto|congruence|auto].
  - assert (sleeping (handleRevoke l SslId σ).2 = sleeping σ) as ->.
    { unfold handleRevoke. by destruct (firstMatch SslId l). }
    destruct (handleRevoke_statusOf l SslId σ k) as [H|H]; rewrite H;
      [apply Hinv|discriminate].
Qed.

(** A step other than an enrolment under the same identifier does not
    make an order pending. *)
Lemma not_pending_step n σ e σ' k :
  counted n σ → 12345 + n + enrolments [e] ≤ 2 ^ 63 → step σ e σ' →
  is_Some (orders σ !! k) → statusOf σ k ≠ Some "pending"%string →
  statusOf σ' k ≠ Some "pending"%string.
Proof.
  intros Hc Hb Hstep Hk Hnp.
  destruct Hstep as [σ Csr now|σ id pre post _|σ l SslId _].
  - rewrite handleEnroll_statusOf_ne; [done|].
    unfold enrolments in Hb. simpl in Hb.
    apply (counted_fresh _ _ _ Hc); [lia|done].
  - destruct (decide (id = k)) as [->|Hne].
    + destruct Hk as [o Ho]. unfold issue, statusOf. simpl. rewrite Ho.
      simpl. rewrite lookup_insert_eq. simpl. discriminate.
    + by rewrite issue_statusOf_ne.
  - destruct (handleRevoke_statusOf l SslId σ k) as [H|H]; rewrite H;
      [done|discriminate].
Qed.

End StoreInvariants.

Lemma not_pending_run n σ t σ' k :
  counted n σ → run σ t σ' → 12345 + n + enrolments t ≤ 2 ^ 63 →
  is_Some (orders σ !! k) → statusOf σ k ≠ Some "pending"%string →
  statusOf σ' k ≠ Some "pending"%string.
Proof.
  intros Hc Hrun. revert n Hc.
  induction Hrun as [σ|σ e σ' t σ'' Hstep Hrun IH]; intros n Hc Hb Hk Hnp.
  - done.
  - rewrite enrolments_cons in Hb. pose proof (enrolments_nonneg t) as Ht.
    apply (IH (n + enrolments [e])).
    + by eapply counted_step.
    + lia.
    + apply (stored_step _ _ _ k Hstep). by left.
    + apply (not_pending_step n σ e σ' k Hc); [lia|done..].
Qed.

(** A run used to try the statements out: an order is enrolled, issued
    and revoked, and a second order is enrolled. *)
Lemma sample_run :
  let σ1 := (handleEnroll "CSR-A" 1000 initial).2 in
  let σ2 := issue 12345 (wake [] [] σ1) in
  let σ3 := (handleRevoke (map_to_list (orders σ2)) "12345" σ2).2 in
  let σ4 := (handleEnroll "CSR-B" 1001 σ3).2 in
  run initial
    [Enroll "CSR-A" 1000 (EnrollResponse.mk 12345 "Order created successfully");
     Issue 12345;
     Revoke "12345" revokeSuccess;
     Enroll "CSR-B" 1001 (EnrollResponse.mk 12346 "Order created successfully")]
    σ4.
Proof.
  intros σ1 σ2 σ3 σ4.
  eapply run_cons; [exact (step_enroll initial "CSR-A" 1000)|].
  eapply run_cons; [exact (step_issue σ1 12345 [] [] eq_refl)|].
  eapply run_cons;
    [exact (step_revoke σ2 (map_to_list (orders σ2)) "12345" (reflexivity _))|].
  eapply run_cons; [exact (step_enroll σ3 "CSR-B" 1001)|].
  apply run_nil.
Qed.

(** X7. No order is lost and none is invented: after a run whose
    enrolments stay within the range of [int], the identifiers in the
    store are exactly 12345, ..., 12345 + n - 1 for the number n of
    enrolments, and the store holds exactly n orders. *)
Theorem store_holds_enrolled t σ :
  run initial t σ → 12345 + enrolments t ≤ 2 ^ 63 →
  (∀ k, is_Some (orders σ !! k) ↔ 12345 ≤ k < 12345 + enrolments t) ∧
  size (orders σ) = length (enrolled t).
Proof.
  intros Hrun Hb.
  assert (∀ k, is_Some (orders σ !! k) ↔ k ∈ enrolled t) as Hst.
  { intros k. rewrite (stored_run _ _ _ k Hrun). split; [|auto].
    intros [[o Ho]|?]; [|done]. simpl in Ho. by rewrite lookup_empty in Ho. }
  split.
  - intros k. by rewrite Hst, (enrolled_range t σ k Hrun Hb).
  - assert (dom (orders σ) = list_to_set (enrolled t)) as Hdom.
    { apply set_eq. intros k.
      by rewrite elem_of_dom, Hst, elem_of_list_to_set. }
    rewrite <- size_dom, Hdom.
    apply size_list_to_set, (enrolled_NoDup t σ Hrun Hb).
Qed.

Lemma store_holds_enrolled_witness :
  ∃ t σ, run initial t σ ∧ 12345 + enrolments t ≤ 2 ^ 63 ∧
         enrolments t = 2 ∧ size (orders σ) = 2%nat ∧
         is_Some (orders σ !! 12346) ∧ orders σ !! 12347 = None.
Proof.
  eexists _, _. split; [exact sample_run|].
  match goal with
  | |- ?b ∧ _ => assert b as Hb by (vm_compute; discriminate)
  end.
  destruct (store_holds_enrolled _ _ sample_run Hb) as [Hk Hsize].
  split; [exact Hb|].
  match goal with
  | |- enrolments ?t = 2 ∧ _ => assert (enrolments t = 2) as Hn by reflexivity
  end.
  split; [exact Hn|]. split; [exact Hsize|].
  split; [apply Hk; lia|].
  apply eq_None_not_Some. intros H. apply Hk in H. lia.
Defined.

(** X8. In every reachable state every stored order sits under its own
    identifier, has one of the statuses "pending", "issued", "revoked"
    and holds the placeholder certificate. *)
Theorem stored_orders_wellformed t σ k o :
  run initial t σ → orders σ !! k = Some o →
  ID o = k ∧ knownStatus (Status o) ∧ Certificate o = generateFakeCert.
Proof.
  intros Hrun. revert k o.
  assert (∀ k o, orders initial !! k = Some o →
            ID o = k ∧ knownStatus (Status o) ∧
            Certificate o = generateFakeCert) as Hinit.
  { intros k o Ho. simpl in Ho. by rewrite lookup_empty in Ho. }
  induction Hrun as [σ|σ e σ' t σ'' Hstep Hrun IH]; [exact Hinit|].
  apply IH. by apply (wellformed_step σ e σ').
Qed.

Lemma stored_orders_wellformed_witness :
  ∃ t σ o, run initial t σ ∧ orders σ !! 12345 = Some o ∧
           ID o = 12345 ∧ Status o = "revoked"%string ∧
           knownStatus (Status o) ∧ Certificate o = generateFakeCert.
Proof.
  eexists _, _, _. split; [exact sample_run|].
  match goal with
  | |- ?b ∧ _ => assert b as Ho by reflexivity
  end.
  destruct (stored_orders_wellformed _ _ _ _ sample_run Ho) as (Hid & Hst & Hc).
  split; [exact Ho|]. split; [exact Hid|]. split; [reflexivity|].
  split; [exact Hst|exact Hc].
Defined.

(** X9. A pending order is never orphaned: in every reachable state the
    goroutine that will issue it is still asleep.  So once no goroutine is
    asleep, no order is pending. *)
Theorem pending_has_goroutine t σ k :
  run initial t σ → statusOf σ k = Some "pending"%string → k ∈ sleeping σ.
Proof.
  intros Hrun. revert k.
  assert (∀ k, statusOf initial k = Some "pending"%string →
               k ∈ sleeping initial) as Hinit.
  { intros k Hk. unfold statusOf in Hk. simpl in Hk.
    by rewrite lookup_empty in Hk. }
  induction Hrun as [σ|σ e σ' t σ'' Hstep Hrun IH]; [exact Hinit|].
  apply IH. by apply (pending_step σ e σ').
Qed.

Lemma pending_has_goroutine_witness :
  ∃ t σ, run initial t σ ∧ statusOf σ 12346 = Some "pending"%string ∧
         12346 ∈ sleeping σ ∧ sleeping σ = [12346].
Proof.
  eexists _, _. split; [exact sample_run|].
  match goal with
  | |- ?b ∧ _ => assert b as Hk by reflexivity
  end.
  split; [exact Hk|].
  split; [exact (pending_has_goroutine _ _ 12346 sample_run Hk)|reflexivity].
Defined.

(** X10. No way back to "pending": along a run whose enrolments stay
    within the range of [int], a stored order that is no longer pending
    (issued or revoked) never becomes pending again. *)
Theorem never_pending_again t1 σ t2 σ' k :
  run initial t1 σ → run σ t2 σ' →
  12345 + enrolments (t1 ++ t2) ≤ 2 ^ 63 →
  is_Some (orders σ !! k) → statusOf σ k ≠ Some "pending"%string →
  statusOf σ' k ≠ Some "pending"%string.
Proof.
  intros Hrun1 Hrun2 Hb Hk Hnp.
  pose proof (counted_run 0 _ _ _ counted_initial Hrun1) as Hc.
  rewrite enrolments_app in Hb.
  apply (not_pending_run _ σ t2 σ' k Hc Hrun2); [lia|done..].
Qed.

Lemma never_pending_again_witness :
  let e1 := Enroll "CSR-A" 1000 (EnrollResponse.mk 12345 "Order created successfully") in
  let e2 := Issue 12345 in
  let e3 := Revoke "12345" revokeSuccess in
  let σ1 := (handleEnroll "CSR-A" 1000 initial).2 in
  let σ2 := issue 12345 (wake [] [] σ1) in
  let σ3 := (handleRevoke (map_to_list (orders σ2)) "12345" σ2).2 in
  run initial [e1; e2] σ2 ∧ run σ2 [e3] σ3 ∧
  12345 + enrolments ([e1; e2] ++ [e3]) ≤ 2 ^ 63 ∧
  statusOf σ2 12345 = Some "issued"%string ∧
  statusOf σ3 12345 ≠ Some "pending"%string.
Proof.
  intros e1 e2 e3 σ1 σ2 σ3.
  assert (run initial [e1; e2] σ2) as Hrun1.
  { eapply run_cons; [exact (step_enroll initial "CSR-A" 1000)|].
    eapply run_cons; [exact (step_issue σ1 12345 [] [] eq_refl)|].
    apply run_nil. }
  assert (run σ2 [e3] σ3) as Hrun2.
  { eapply run_cons;
      [exact (step_revoke σ2 (map_to_list (orders σ2)) "12345" (reflexivity _))|].
    apply run_nil. }
  assert (12345 + enrolments ([e1; e2] ++ [e3]) ≤ 2 ^ 63) as Hb
    by (vm_compute; discriminate).
  assert (statusOf σ2 12345 = Some "issued"%string) as Hst by reflexivity.
  split; [exact Hrun1|]. split; [exact Hrun2|]. split; [exact Hb|].
  split; [exact Hst|].
  apply (never_pending_again [e1; e2] σ2 [e3] σ3 12345 Hrun1 Hrun2 Hb).
  - by eexists.
  - rewrite Hst. discriminate.
Defined.

(** ** The handlers with their request checks *)

Section Requests.

Lemma wrap_range z : Go.minInt ≤ Go.wrap z ≤ Go.maxInt.
Proof.
  unfold Go.wrap, Go.minInt, Go.maxInt.
  pose proof (Z.mod_pos_bound (z + 2 ^ 63) (2 ^ 64) ltac:(lia)). lia.
Qed.

Lemma sameStore_refl σ : sameStore σ σ.
Proof. by repeat split. Qed.

(** A call of a handler, or a wake-up, is on the store either nothing or a
    step of the transition system of the store. *)
Lemma http_step_store σ c σ' τ :
  HTTP.step σ c σ' → sameStore τ σ →
  sameStore τ σ' ∨ ∃ e τ', step τ e τ' ∧ sameStore τ' σ'.
Proof.
  intros Hstep (Ho & Hn & Hs).
  destruct Hstep as [σ Method body b _|σ Method body now|σ Method Path
                    |σ Method Path|σ Method body l Hl|σ id pre post Hsl].
  - left. unfold HTTP.handleAuth.
    destruct (negb _); [done|]. by destruct body.
  - unfold HTTP.handleEnroll.
    destruct (negb _); [by left|]. destruct body as [req|]; [|by left].
    right. eexists _, _. split; [apply (step_enroll τ (EnrollRequest.Csr req) now)|].
    simpl. by rewrite Ho, Hn, Hs.
  - by left.
  - by left.
  - unfold HTTP.handleRevoke.
    destruct (negb _); [by left|]. destruct body as [req|]; [|by left].
    right. eexists _, _. split.
    + apply (step_revoke τ l (RevokeRequest.SslId req)). by rewrite Ho.
    + unfold handleRevoke. simpl.
      destruct (firstMatch _ l); simpl; [|done]. by rewrite Ho.
  - right. eexists _, _. split.
    + apply (step_issue τ id pre post). by rewrite Hs.
    + unfold issue. simpl. rewrite Ho.
      destruct (orders σ !! id); unfold sameStore; simpl; rewrite ?Ho;
        by repeat split.
Qed.

Lemma http_run_store σ cs σ' τ :
  HTTP.run σ cs σ' → sameStore τ σ →
  ∃ t τ', run τ t τ' ∧ sameStore τ' σ' ∧ (length t ≤ length cs)%nat.
Proof.
  intros Hrun. revert τ.
  induction Hrun as [σ|σ c σ' cs σ'' Hstep Hrun IH]; intros τ Hsame.
  - exists [], τ. split; [apply run_nil|]. by split.
  - destruct (http_step_store σ c σ' τ Hstep Hsame)
      as [Hsame'|(e & τ' & Hcore & Hsame')].
    + destruct (IH τ Hsame') as (t & τ'' & Ht & Hs & Hlen).
      exists t, τ''. split; [done|]. split; [done|]. simpl. lia.
    + destruct (IH τ' Hsame') as (t & τ'' & Ht & Hs & Hlen).
      exists (e :: t), τ''. split; [by eapply run_cons|].
      split; [done|]. simpl. lia.
Qed.

End Requests.

(** X11. The request checks add nothing to the life of the store: the
    store reached by any sequence of handler calls (of any method, with
    bodies that decode or not, on any paths) and wake-ups is a store
    reached by a run of enrolments, wake-ups and revocations that is no
    longer than the sequence; every invariant of those runs therefore
    holds for the server behind its handlers. *)
Theorem handler_calls_refine_store cs σ :
  HTTP.run initial cs σ →
  ∃ t τ, run initial t τ ∧ sameStore τ σ ∧ (length t ≤ length cs)%nat.
Proof.
  intros Hrun. exact (http_run_store initial cs σ initial Hrun (sameStore_refl _)).
Qed.

Lemma handler_calls_refine_store_witness :
  let req := EnrollRequest.mk "CSR-A" 12 301 in
  let cs := [HTTP.Auth "POST" (Some (AuthRequest.mk "alice" "secret"))
               (replicate 16 Byte.x2a);
             HTTP.Enroll "GET" (Some req) 1000;
             HTTP.Enroll "POST" (Some req) 1000;
             HTTP.GetStatus "GET" "/api/ssl/v1/status/12345";
             HTTP.Revoke "POST" None;
             HTTP.Wake 12345] in
  ∃ σ, HTTP.run initial cs σ ∧
       statusOf σ 12345 = Some "issued"%string ∧
       ∃ t τ, run initial t τ ∧ sameStore τ σ ∧ (length t ≤ length cs)%nat.
Proof.
  intros req cs.
  pose (σ1 := (HTTP.handleAuth "POST" (Some (AuthRequest.mk "alice" "secret"))
                 (replicate 16 Byte.x2a) initial).2).
  pose (σ3 := (HTTP.handleEnroll "POST" (Some req) 1000 σ1).2).
  pose (σ6 := issue 12345 (wake [] [] σ3)).
  assert (HTTP.run initial cs σ6) as Hrun.
  { eapply HTTP.run_cons;
      [exact (HTTP.step_auth initial "POST" _ (replicate 16 Byte.x2a) eq_refl)|].
    eapply HTTP.run_cons; [exact (HTTP.step_enroll σ1 "GET" (Some req) 1000)|].
    eapply HTTP.run_cons; [exact (HTTP.step_enroll σ1 "POST" (Some req) 1000)|].
    eapply HTTP.run_cons; [exact (HTTP.step_status σ3 "GET" _)|].
    eapply HTTP.run_cons;
      [exact (HTTP.step_revoke σ3 "POST" None (map_to_list (orders σ3))
                (reflexivity _))|].
    eapply HTTP.run_cons; [exact (HTTP.step_wake σ3 12345 [] [] eq_refl)|].
    apply HTTP.run_nil. }
  exists σ6. split; [exact Hrun|]. split; [reflexivity|].
  exact (handler_calls_refine_store cs σ6 Hrun).
Defined.

(** X12. A refused request leaves no trace.  The handlers for auth, enroll
    and revoke answer with an HTTP error exactly when the method is not
    POST or the body does not decode (405 and 400), and then the state is
    untouched: no order, no goroutine, no log line.  A revocation that
    finds no order is not such an error: it is an encoded answer. *)
Theorem refused_request_leaves_no_trace Method σ :
  (∀ body b,
     let r := HTTP.handleAuth Method body b σ in
     ((∃ msg code, r.1 = HttpError msg code) ↔
      Method ≠ MethodPost ∨ body = None) ∧
     (∀ msg code, r.1 = HttpError msg code →
        r.2 = σ ∧ (code = StatusMethodNotAllowed ∨ code = StatusBadRequest))) ∧
  (∀ body now,
     let r := HTTP.handleEnroll Method body now σ in
     ((∃ msg code, r.1 = HttpError msg code) ↔
      Method ≠ MethodPost ∨ body = None) ∧
     (∀ msg code, r.1 = HttpError msg code →
        r.2 = σ ∧ (code = StatusMethodNotAllowed ∨ code = StatusBadRequest))) ∧
  (∀ body l,
     let r := HTTP.handleRevoke Method body l σ in
     ((∃ msg code, r.1 = HttpError msg code) ↔
      Method ≠ MethodPost ∨ body = None) ∧
     (∀ msg code, r.1 = HttpError msg code →
        r.2 = σ ∧ (code = StatusMethodNotAllowed ∨ code = StatusBadRequest))).
Proof.
  split; [|split]; intros body x r; subst r;
    unfold HTTP.handleAuth, HTTP.handleEnroll, HTTP.handleRevoke;
    destruct (String.eqb_spec Method MethodPost) as [HM|HM]; simpl.
  all: try destruct body as [req|]; simpl; split.
  all: first
    [ (* the request is served *)
      split; [intros (? & ? & H); discriminate H
             |intros [H|H]; [done|discriminate H]]
    | intros msg code H; discriminate H
    | (* the body does not decode, or the method is wrong *)
      split; [intros _; first [by right|by left]|intros _; by eexists _, _]
    | intros msg code [= _ <-]; split; [done|first [by right|by left]] ].
Qed.

Lemma refused_request_leaves_no_trace_witness :
  let σ := (handleEnroll "CSR-A" 1000 initial).2 in
  let req := RevokeRequest.mk "12345" "keyCompromise" in
  (HTTP.handleRevoke "GET" (Some req) (map_to_list (orders σ)) σ).1 =
    HttpError "Method not allowed" 405 ∧
  (HTTP.handleRevoke "GET" (Some req) (map_to_list (orders σ)) σ).2 = σ ∧
  (HTTP.handleEnroll "POST" None 1001 σ).1 =
    HttpError "Invalid request body" 400 ∧
  (HTTP.handleEnroll "POST" None 1001 σ).2 = σ.
Proof.
  intros σ req.
  destruct (refused_request_leaves_no_trace "GET" σ) as (_ & _ & Hrevoke).
  destruct (refused_request_leaves_no_trace "POST" σ) as (_ & Henroll & _).
  assert ((HTTP.handleRevoke "GET" (Some req) (map_to_list (orders σ)) σ).1 =
          HttpError "Method not allowed" 405) as H1 by reflexivity.
  assert ((HTTP.handleEnroll "POST" None 1001 σ).1 =
          HttpError "Invalid request body" 400) as H2 by reflexivity.
  split; [exact H1|].
  split; [exact (proj1 (proj2 (Hrevoke (Some req) _) _ _ H1))|].
  split; [exact H2|].
  exact (proj1 (proj2 (Henroll None 1001) _ _ H2)).
Defined.

Lemma invalid_path_iff_witness :
  (occurrences "/" "/api/ssl/status/12345" < 5)%nat ∧
  HTTP.handleStatus "GET" "/api/ssl/status/12345" initial =
    StatusError "Invalid path" 400 ∧
  HTTP.handleCollect "GET" "/api/ssl/status/12345" initial =
    CollectError "Invalid path" 400.
Proof.
  assert (occurrences "/" "/api/ssl/status/12345" < 5)%nat as H
    by (vm_compute; lia).
  destruct (invalid_path_iff "/api/ssl/status/12345" initial) as [Hs Hc].
  split; [exact H|]. split; [exact (proj2 Hs H)|exact (proj2 Hc H)].
Defined.

Lemma collect_file_iff_status_issued_witness :
  let σ := issue 12345 (handleEnroll "CSR-A" 1000 initial).2 in
  HTTP.handleStatus "GET" "/api/ssl/v1/status/12345" σ =
    StatusJSON 12345 "issued" ∧
  ∃ name body,
    HTTP.handleCollect "GET" "/api/ssl/v1/status/12345" σ =
      CollectFile name body.
Proof.
  intros σ.
  assert (HTTP.handleStatus "GET" "/api/ssl/v1/status/12345" σ =
          StatusJSON 12345 "issued") as H by reflexivity.
  split; [exact H|].
  apply (collect_file_iff_status_issued "GET" "/api/ssl/v1/status/12345" σ).
  by exists 12345.
Defined.

(** X13. From enrolment to polling.  In every state the server can be in,
    an accepted enrolment answers with an identifier under which the order
    can be found at once: a GET on the status route with the decimal
    rendering of that identifier reports "pending", and a GET on the
    collect route answers that the certificate is not ready. *)
Theorem enroll_then_poll cs σ req now :
  HTTP.run initial cs σ →
  ∃ resp,
    (HTTP.handleEnroll MethodPost (Some req) now σ).1 = Encoded resp ∧
    let σ' := (HTTP.handleEnroll MethodPost (Some req) now σ).2 in
    let X := EnrollResponse.SslId resp in
    HTTP.handleStatus MethodGet (statusPath (Go.Sprintf_d X)) σ' =
      StatusJSON X "pending" ∧
    HTTP.handleCollect MethodGet (collectPath (Go.Sprintf_d X)) σ' =
      CollectError "Certificate not ready (status: pending)" StatusBadRequest.
Proof.
  intros Hrun.
  destruct (http_run_store initial cs σ initial Hrun (sameStore_refl _))
    as (t & τ & Ht & (_ & Hn & _) & _).
  pose proof (counted_run 0 _ _ _ counted_initial Ht) as (_ & Hnext & _).
  assert (Go.minInt ≤ nextID σ ≤ Go.maxInt) as Hid.
  { rewrite <- Hn, Hnext. apply wrap_range. }
  exists (handleEnroll (EnrollRequest.Csr req) now σ).1.
  split; [reflexivity|]. intros σ' X.
  destruct (Sscanf_d_first_piece X EmptyString Hid) as (p & ps & Hs & Hp);
    [discriminate|].
  rewrite append_empty_r in Hs.
  rewrite (handleStatus_statusPath _ p ps σ' Hs),
          (handleCollect_collectPath _ p ps σ' Hs), Hp.
  subst σ' X. unfold handleStatus, handleCollect. simpl.
  by rewrite lookup_insert_eq.
Qed.

Lemma enroll_then_poll_witness :
  let req := EnrollRequest.mk "CSR-A" 12 301 in
  let σ := (HTTP.handleEnroll "POST" (Some req) 1000 initial).2 in
  HTTP.run initial [HTTP.Enroll "POST" (Some req) 1000] σ ∧
  (HTTP.handleEnroll "POST" (Some req) 1001 σ).1 =
    Encoded (EnrollResponse.mk 12346 "Order created successfully") ∧
  HTTP.handleStatus "GET" "/api/ssl/v1/status/12346"
    (HTTP.handleEnroll "POST" (Some req) 1001 σ).2 =
    StatusJSON 12346 "pending".
Proof.
  intros req σ.
  assert (HTTP.run initial [HTTP.Enroll "POST" (Some req) 1000] σ) as Hrun.
  { eapply HTTP.run_cons;
      [exact (HTTP.step_enroll initial "POST" (Some req) 1000)|].
    apply HTTP.run_nil. }
  destruct (enroll_then_poll _ σ req 1001 Hrun) as (resp & Hresp & Hst & _).
  split; [exact Hrun|]. split; [reflexivity|].
  injection Hresp as <-. exact Hst.
Defined.

(** ** No early release *)

Lemma not_issued_step σ e σ' k :
  step σ e σ' → e ≠ Issue k →
  statusOf σ k ≠ Some "issued"%string →
  statusOf σ' k ≠ Some "issued"%string.
Proof.
  intros Hstep He Hk.
  destruct Hstep as [σ Csr now|σ id pre post _|σ l SslId _].
  - destruct (decide (nextID σ = k)) as [Heq|Hne].
    + subst k. unfold statusOf. simpl. rewrite lookup_insert_eq. discriminate.
    + by rewrite handleEnroll_statusOf_ne.
  - rewrite issue_statusOf_ne; [done|congruence].
  - destruct (handleRevoke_statusOf l SslId σ k) as [H|H]; rewrite H;
      [done|discriminate].
Qed.

Lemma not_issued_run σ t σ' k :
  run σ t σ' → (Issue k ∉ t) →
  statusOf σ k ≠ Some "issued"%string →
  statusOf σ' k ≠ Some "issued"%string.
Proof.
  induction 1 as [σ|σ e σ' t σ'' Hstep Hrun IH]; intros Hk Hst; [done|].
  apply not_elem_of_cons in Hk as [Hne Hk].
  apply IH; [done|].
  apply (not_issued_step σ e σ' k Hstep); [congruence|done].
Qed.

(** X14. No certificate leaves the server before the goroutine of its
    order has woken up: after a run from the initial state in which the
    goroutine started for [k] has not woken, the order [k] is not issued
    and the collect handler sends no file for [k], whatever else has
    happened. *)
Theorem no_file_before_wake t σ k :
  run initial t σ → (Issue k ∉ t) →
  statusOf σ k ≠ Some "issued"%string ∧
  ∀ name body, handleCollect k σ ≠ CollectFile name body.
Proof.
  intros Hrun Hk.
  assert (statusOf σ k ≠ Some "issued"%string) as Hst.
  { apply (not_issued_run initial t σ k Hrun Hk).
    unfold statusOf. simpl. by rewrite lookup_empty. }
  split; [exact Hst|].
  intros name body. unfold handleCollect. unfold statusOf in Hst.
  destruct (orders σ !! k) as [o|]; [|discriminate].
  destruct (String.eqb_spec (Status o) "issued") as [Heq|Hne]; simpl;
    [|discriminate].
  exfalso. apply Hst. simpl. by rewrite Heq.
Qed.

Lemma no_file_before_wake_witness :
  let e1 := Enroll "CSR-A" 1000 (EnrollResponse.mk 12345 "Order created successfully") in
  let e2 := Enroll "CSR-B" 1001 (EnrollResponse.mk 12346 "Order created successfully") in
  let e3 := Issue 12345 in
  let σ1 := (handleEnroll "CSR-A" 1000 initial).2 in
  let σ2 := (handleEnroll "CSR-B" 1001 σ1).2 in
  let σ3 := issue 12345 (wake [] [12346] σ2) in
  run initial [e1; e2; e3] σ3 ∧ (Issue 12346 ∉ [e1; e2; e3]) ∧
  statusOf σ3 12345 = Some "issued"%string ∧
  statusOf σ3 12346 ≠ Some "issued"%string.
Proof.
  intros e1 e2 e3 σ1 σ2 σ3.
  assert (run initial [e1; e2; e3] σ3) as Hrun.
  { eapply run_cons; [exact (step_enroll initial "CSR-A" 1000)|].
    eapply run_cons; [exact (step_enroll σ1 "CSR-B" 1001)|].
    eapply run_cons; [exact (step_issue σ2 12345 [] [12346] eq_refl)|].
    apply run_nil. }
  assert (Issue 12346 ∉ [e1; e2; e3]) as Hk.
  { intros H. repeat (apply elem_of_cons in H as [H|H]; [discriminate|]).
    by apply elem_of_nil in H. }
  split; [exact Hrun|]. split; [exact Hk|]. split; [reflexivity|].
  exact (proj1 (no_file_before_wake [e1; e2; e3] σ3 12346 Hrun Hk)).
Defined.
